(** * BPCells: streaming minimum transforms and statistics results

    A shallow embedding of [src/matrixTransforms/Min.cpp] and
    [src/matrixIterators/MatrixStats.cpp].

    - [double] is IEEE binary64, the kernel's primitive [float]; [std::min]
      is written out as the comparison it performs, so NaN and signed zeros
      behave as in the C++ code.
    - [uint32_t] counters and indices are [Z]; the loop counter of the
      three [load] functions runs over [0 .. capacity-1] and cannot wrap.
    - The chunk buffer is owned by the innermost source and shared by every
      stage of a chain: it lives in one [World] threaded through all the
      loaders, together with a trace of the parameter look-ups performed. *)

From Stdlib Require Import ZArith Lia Bool String Floats.
From stdpp Require Import base list.

Set Default Proof Using "Type".
Open Scope Z_scope.

(* ------------------------------------------------------------------ *)
(** ** Doubles *)

Module Double.

(** [double]: IEEE binary64. *)
Abbreviation double := float (only parsing).

(** [std::min(a, b)]: returns [b] when [b < a] and [a] otherwise. *)
Definition std_min (a b : double) : double :=
  if PrimFloat.ltb b a then b else a.

(** [x != x]. *)
Definition isnan (x : double) : bool := negb (PrimFloat.eqb x x).

(** [a <= b] as the C++ comparison evaluates it. *)
Definition double_le (a b : double) : Prop := PrimFloat.leb a b = true.

(** Two doubles hold the same number: both are NaN, or [a == b] holds.
    (So [+0] and [-0] hold the same number.) *)
Definition same_number (a b : double) : bool :=
  (isnan a && isnan b) || PrimFloat.eqb a b.

(** Position of a non-NaN value on the extended real line, as a
    lexicographically ordered triple: class, then exponent, then
    mantissa (both negated for negative numbers). *)
Definition key (x : spec_float) : Z * Z * Z :=
  match x with
  | S754_zero _ => (0, 0, 0)
  | S754_infinity true => (-2, 0, 0)
  | S754_infinity false => (2, 0, 0)
  | S754_nan => (0, 0, 0)
  | S754_finite true m e => (-1, - e, - Z.pos m)
  | S754_finite false m e => (1, e, Z.pos m)
  end.

Definition key_lt (a b : Z * Z * Z) : Prop :=
  let '(a1, a2, a3) := a in
  let '(b1, b2, b3) := b in
  a1 < b1 \/ (a1 = b1 /\ (a2 < b2 \/ (a2 = b2 /\ a3 < b3))).

Definition key_compare (a b : Z * Z * Z) : comparison :=
  let '(a1, a2, a3) := a in
  let '(b1, b2, b3) := b in
  match a1 ?= b1 with
  | Eq => match a2 ?= b2 with Eq => a3 ?= b3 | c => c end
  | c => c
  end.

Definition K (x : double) : Z * Z * Z := key (Prim2SF x).

End Double.

Import Double.

(* ------------------------------------------------------------------ *)
(** ** Chunks, the parameter provider and the loader protocol *)

(** The chunk currently held by a chain: what [valData()], [rowData()],
    [capacity()] and [currentCol()] give access to. *)
Record Chunk : Type := mkChunk {
  val_data : list double;
  row_data : list Z;
  cap : Z;
  current_col : Z
}.

(** Modelled from the spec: [TransformFit] is declared in a header that is
    not part of the sources at hand. The parameter provider is "three lookup
    operations [global_params(index)], [row_params(index, row)],
    [col_params(index, col)], each assumed total". *)
Record TransformFit : Type := mkFit {
  row_params : Z -> Z -> double;
  col_params : Z -> Z -> double;
  global_params : Z -> double
}.

(** One read of the parameter provider. *)
Inductive Lookup : Type :=
| GlobalParams (index : Z)
| RowParams (index row : Z)
| ColParams (index col : Z).

Definition lookup_index (l : Lookup) : Z :=
  match l with
  | GlobalParams k | RowParams k _ | ColParams k _ => k
  end.

(** Everything a chain can touch: the state of the innermost source, the
    shared chunk buffer, and the look-ups made so far (oldest first). *)
Record World (Src : Type) : Type := mkWorld {
  source : Src;
  chunk : Chunk;
  lookups : list Lookup
}.
Arguments mkWorld {Src} _ _ _.
Arguments source {Src} _.
Arguments chunk {Src} _.
Arguments lookups {Src} _.

(** Computations over the world. *)
Definition M (Src A : Type) : Type := World Src -> A * World Src.

Definition ret {Src A} (a : A) : M Src A := fun w => (a, w).

Definition bind {Src A B} (m : M Src A) (k : A -> M Src B) : M Src B :=
  fun w => let '(a, w1) := m w in k a w1.

Declare Scope loader_scope.
Delimit Scope loader_scope with loader.
Notation "'let!' x := m 'in' k" := (bind m (fun x => k))
  (at level 10, x name, m at level 100, k at level 200) : loader_scope.
Notation "'run!' m 'in' k" := (bind m (fun _ => k))
  (at level 10, m at level 100, k at level 200) : loader_scope.
Open Scope loader_scope.

(** A loader is its [load()] method: "advances to the next chunk ...
    returns false when the upstream is exhausted". *)
Definition Loader (Src : Type) : Type := M Src bool.

Section Accessors.
Context {Src : Type}.

(** [capacity()] and [currentCol()]. *)
Definition capacity : M Src Z := fun w => (cap (chunk w), w).
Definition currentCol : M Src Z := fun w => (current_col (chunk w), w).

(** [val_data[i]] and [row_data[i]] read. Reading past the end of the
    buffer is undefined in C++; here it reads zero. *)
Definition val_get (i : Z) : M Src double :=
  fun w => (default 0%float (val_data (chunk w) !! Z.to_nat i), w).
Definition row_get (i : Z) : M Src Z :=
  fun w => (default 0 (row_data (chunk w) !! Z.to_nat i), w).

(** [val_data[i] = x]. Writing past the end of the buffer is undefined
    in C++; here it writes nothing. *)
Definition val_set (i : Z) (x : double) : M Src unit :=
  fun w =>
    let c := chunk w in
    (tt, mkWorld (source w)
           (mkChunk (<[Z.to_nat i := x]> (val_data c)) (row_data c) (cap c) (current_col c))
           (lookups w)).

(** The three reads of the parameter provider, each leaving its mark on
    the trace. *)
Definition fit_global_params (fit : TransformFit) (k : Z) : M Src double :=
  fun w => (global_params fit k,
            mkWorld (source w) (chunk w) (lookups w ++ [GlobalParams k])).
Definition fit_row_params (fit : TransformFit) (k r : Z) : M Src double :=
  fun w => (row_params fit k r,
            mkWorld (source w) (chunk w) (lookups w ++ [RowParams k r])).
Definition fit_col_params (fit : TransformFit) (k c : Z) : M Src double :=
  fun w => (col_params fit k c,
            mkWorld (source w) (chunk w) (lookups w ++ [ColParams k c])).

(** [for (uint32_t i = from; i < from + n; i++) body(i)], for a trip count
    [n] known on entry. *)
Fixpoint for_loop (n : nat) (i : Z) (body : Z -> M Src unit) : M Src unit :=
  match n with
  | O => ret tt
  | S n' => run! body i in for_loop n' (i + 1) body
  end.

(** [for (uint32_t i = 0; i < cap; i++) body(i)]: [cap] iterations, the
    counter staying below [cap], so the increment never wraps. *)
Definition for_upto (c : Z) (body : Z -> M Src unit) : M Src unit :=
  for_loop (Z.to_nat c) 0 body.

(** The effect of one iteration of a stage's loop, for the proofs: the
    look-ups [e], then [val_data[i] = std::min(val_data[i], p)]. *)
Definition clamp_entry (p : double) (e : list Lookup) (i : Z) (w : World Src) : World Src :=
  let c := chunk w in
  mkWorld (source w)
    (mkChunk (<[Z.to_nat i := std_min (default 0%float (val_data c !! Z.to_nat i)) p]> (val_data c))
             (row_data c) (cap c) (current_col c))
    (lookups w ++ e).

End Accessors.

(* ------------------------------------------------------------------ *)
(** ** Min.cpp *)

Module Min.
Definition load {Src} (fit : TransformFit) (loader : Loader Src) : Loader Src :=
  let! ok := loader in
  if negb ok then ret false else
  let! c := capacity in
  run! for_upto c (fun i =>
    let! v := val_get i in
    let! p := fit_global_params fit 0 in
    val_set i (std_min v p)) in
  ret true.
End Min.

Module MinByRow.
Definition load {Src} (fit : TransformFit) (loader : Loader Src) : Loader Src :=
  let! ok := loader in
  if negb ok then ret false else
  let! c := capacity in
  run! for_upto c (fun i =>
    let! v := val_get i in
    let! r := row_get i in
    let! p := fit_row_params fit 0 r in
    val_set i (std_min v p)) in
  ret true.
End MinByRow.

Module MinByCol.
Definition load {Src} (fit : TransformFit) (loader : Loader Src) : Loader Src :=
  let! ok := loader in
  if negb ok then ret false else
  let! c := capacity in
  let! col := currentCol in
  let! col_min := fit_col_params fit 0 col in
  run! for_upto c (fun i =>
    let! v := val_get i in
    val_set i (std_min v col_min)) in
  ret true.
End MinByCol.

(** Modelled from the spec: the chunked matrix source is an external
    collaborator known by the loader protocol only. This one, for running
    chains, holds the chunks still to come and hands out one per [load()];
    once the list is empty every [load()] returns false and leaves the
    buffer alone. *)
Module ListSource.
Definition load : Loader (list Chunk) :=
  fun w =>
    match source w with
    | [] => (false, w)
    | c :: rest => (true, mkWorld rest c (lookups w))
    end.

Definition start (cs : list Chunk) : World (list Chunk) :=
  mkWorld cs (mkChunk [] [] 0 0) [].
End ListSource.

(** The scenario of the specification: column 0 holding 1, 5, 3 in rows
    0, 2, 4. *)
Definition scenario_chunk : Chunk :=
  mkChunk [1%float; 5%float; 3%float] [0; 2; 4] 3 0.

Definition scenario_fit : TransformFit :=
  mkFit (fun _ r => if r =? 0 then 0%float else if r =? 2 then 10%float else 1%float)
        (fun _ _ => 4%float)
        (fun _ => 2%float).

(** The three stages as subclasses of one loader interface: [load()] is
    dispatched on the class of the stage. *)
Inductive MinStage : Type := StageMin | StageMinByRow | StageMinByCol.

Definition stage_load {Src} (k : MinStage) : TransformFit -> Loader Src -> Loader Src :=
  match k with
  | StageMin => Min.load
  | StageMinByRow => MinByRow.load
  | StageMinByCol => MinByCol.load
  end.

(** The parameter a stage applies to entry [i] of the chunk [c] it has
    just pulled, and the look-ups one successful [load()] makes, in order. *)
Definition stage_param (k : MinStage) (fit : TransformFit) (c : Chunk) (i : nat) : double :=
  match k with
  | StageMin => global_params fit 0
  | StageMinByRow => row_params fit 0 (default 0 (row_data c !! i))
  | StageMinByCol => col_params fit 0 (current_col c)
  end.

Definition stage_lookups (k : MinStage) (c : Chunk) : list Lookup :=
  match k with
  | StageMin => replicate (Z.to_nat (cap c)) (GlobalParams 0)
  | StageMinByRow =>
      map (fun i => RowParams 0 (default 0 (row_data c !! i))) (seq 0 (Z.to_nat (cap c)))
  | StageMinByCol => [ColParams 0 (current_col c)]
  end.

(* ------------------------------------------------------------------ *)
(** ** MatrixStats.cpp *)

Module MatrixStats.

(** [Eigen::ArrayXXd], a two-dimensional array of doubles, as the list
    of its rows. *)
Definition ArrayXXd : Type := list (list double).

(** [a.rows()]. *)
Definition rows (a : ArrayXXd) : Z := Z.of_nat (length a).

(** [a.row(k)], a one-row array. The accessors below only call it with
    [k < a.rows()]; outside that range Eigen's behaviour is undefined and
    the model gives the empty array. *)
Definition row (a : ArrayXXd) (k : Z) : ArrayXXd :=
  match a !! Z.to_nat k with
  | Some r => [r]
  | None => []
  end.

(** A call returns a value or throws [std::runtime_error(what)]. *)
Inductive result (A : Type) : Type :=
| Ok (a : A)
| Throw (what : string).
Arguments Ok {A} _.
Arguments Throw {A} _.

Definition succeeds {A} (r : result A) : bool :=
  match r with Ok _ => true | Throw _ => false end.

(** Modelled from the spec: the declaration of [StatsResult] is in a
    header that is not part of the sources at hand; it holds "two 2-D
    numeric arrays, [row_stats] and [col_stats]", in that order. *)
Record StatsResult : Type := mkStatsResult {
  row_stats : ArrayXXd;
  col_stats : ArrayXXd
}.

Definition rowNonzeros (s : StatsResult) : result ArrayXXd :=
  if rows (row_stats s) <? 1
  then Throw "Nonzero not calculated in this StatsResult"
  else Ok (row (row_stats s) 0).

Definition rowMean (s : StatsResult) : result ArrayXXd :=
  if rows (row_stats s) <? 2
  then Throw "Mean not calculated in this StatsResult"
  else Ok (row (row_stats s) 1).

Definition rowVariance (s : StatsResult) : result ArrayXXd :=
  if rows (row_stats s) <? 3
  then Throw "Variance not calculated in this StatsResult"
  else Ok (row (row_stats s) 2).

Definition colNonzeros (s : StatsResult) : result ArrayXXd :=
  if rows (col_stats s) <? 1
  then Throw "Nonzero not calculated in this StatsResult"
  else Ok (row (col_stats s) 0).

Definition colMean (s : StatsResult) : result ArrayXXd :=
  if rows (col_stats s) <? 2
  then Throw "Mean not calculated in this StatsResult"
  else Ok (row (col_stats s) 1).

Definition colVariance (s : StatsResult) : result ArrayXXd :=
  if rows (col_stats s) <? 3
  then Throw "Variance not calculated in this StatsResult"
  else Ok (row (col_stats s) 2).

Definition transpose (s : StatsResult) : StatsResult :=
  mkStatsResult (col_stats s) (row_stats s).

(** The contract of an accessor [f] for the statistic at position [k] of
    the array [a]: it throws [what] when [a] has at most [k] rows and
    returns row [k] otherwise. *)
Definition accessor_at (f : result ArrayXXd) (a : ArrayXXd) (k : nat) (what : string) : Prop :=
  ((length a <= k)%nat -> f = Throw what) /\
  (forall r : list double, a !! k = Some r -> f = Ok [r]) /\
  (succeeds f = false <-> (length a <= k)%nat).

End MatrixStats.

(** The world once the list source has handed out the scenario chunk. *)
Definition scenario_held : World (list Chunk) := mkWorld [] scenario_chunk [].

(** Two chunks holding the same value 5 in row 0, one for column 0 and
    one for column 1, and per-column parameters 4 and 2. *)
Definition two_columns : list Chunk :=
  [mkChunk [5%float] [0] 1 0; mkChunk [5%float] [0] 1 1].

Definition two_columns_fit : TransformFit :=
  mkFit (fun _ _ => 9%float)
        (fun _ c => if c =? 0 then 4%float else 2%float)
        (fun _ => 9%float).

(** The chunk a successful [load()] of a stage leaves, as a function of
    the chunk [c] the upstream produced: the first [capacity()] values
    clamped with the stage's parameter, everything else as it was. *)
Definition clamp_chunk (k : MinStage) (fit : TransformFit) (c : Chunk) : Chunk :=
  mkChunk
    (imap (fun i v => if decide (i < Z.to_nat (cap c))%nat
                      then std_min v (stage_param k fit c i) else v)
          (val_data c))
    (row_data c) (cap c) (current_col c).

(** A chain: the stages of the list wrapped around [loader] one after the
    other, the first of the list innermost. *)
Definition wrap_all {Src} (stages : list (MinStage * TransformFit)) (loader : Loader Src)
    : Loader Src :=
  fold_left (fun inner st => stage_load (fst st) (snd st) inner) stages loader.

(* ------------------------------------------------------------------ *)
(** * Properties *)

(** ** The specification's scenario, run *)

Example scenario_global :
  val_data (chunk (snd (Min.load scenario_fit ListSource.load (ListSource.start [scenario_chunk]))))
  = [1%float; 2%float; 2%float].
Proof. vm_compute. reflexivity. Qed.

Example scenario_by_row :
  val_data (chunk (snd (MinByRow.load scenario_fit ListSource.load (ListSource.start [scenario_chunk]))))
  = [0%float; 5%float; 1%float].
Proof. vm_compute. reflexivity. Qed.

Example scenario_by_col :
  val_data (chunk (snd (MinByCol.load scenario_fit ListSource.load (ListSource.start [scenario_chunk]))))
  = [1%float; 4%float; 3%float].
Proof. vm_compute. reflexivity. Qed.

(* ------------------------------------------------------------------ *)
(** ** Comparison of doubles *)

(** The specification of the comparisons ([SFcompare]) orders numbers as
    their keys are ordered. *)
Lemma SFcompare_key x y :
  x <> S754_nan -> y <> S754_nan ->
  SFcompare x y = Some (key_compare (key x) (key y)).
Proof.
  intros Hx Hy.
  destruct x as [sx | [|] | | [|] mx ex], y as [sy | [|] | | [|] my ey];
    try congruence; try reflexivity.
  cbn. f_equal.
  change (PosDef.Pos.compare_cont Eq mx my) with (mx ?= my)%positive.
  destruct (Z.compare_spec ex ey), (Z.compare_spec (- ex) (- ey)); try lia;
    reflexivity.
Qed.

Lemma key_compare_lt a b : key_compare a b = Lt <-> key_lt a b.
Proof.
  destruct a as [[a1 a2] a3], b as [[b1 b2] b3]. unfold key_compare, key_lt.
  destruct (Z.compare_spec a1 b1), (Z.compare_spec a2 b2), (Z.compare_spec a3 b3);
    split; intros; try discriminate; try lia; reflexivity.
Qed.

Lemma key_compare_gt a b : key_compare a b = Gt <-> key_lt b a.
Proof.
  destruct a as [[a1 a2] a3], b as [[b1 b2] b3]. unfold key_compare, key_lt.
  destruct (Z.compare_spec a1 b1), (Z.compare_spec a2 b2), (Z.compare_spec a3 b3);
    split; intros; try discriminate; try lia; reflexivity.
Qed.

Lemma key_compare_eq a b : key_compare a b = Eq <-> a = b.
Proof.
  destruct a as [[a1 a2] a3], b as [[b1 b2] b3]. unfold key_compare.
  destruct (Z.compare_spec a1 b1), (Z.compare_spec a2 b2), (Z.compare_spec a3 b3);
    split; intros He; try discriminate; try (injection He; lia); subst; reflexivity.
Qed.

Lemma isnan_spec x : isnan x = true <-> Prim2SF x = S754_nan.
Proof.
  unfold isnan. rewrite FloatAxioms.eqb_spec. unfold SFeqb.
  destruct (Prim2SF x) as [s | s | | s m e].
  1,2,4: rewrite SFcompare_key by discriminate;
    match goal with |- context [key_compare ?k ?k] =>
      destruct (key_compare_eq k k) as [_ ->]; [split; discriminate | reflexivity]
    end.
  cbn. split; reflexivity.
Qed.

Lemma isnan_false x : isnan x = false <-> Prim2SF x <> S754_nan.
Proof. rewrite <- isnan_spec. destruct (isnan x); split; congruence. Qed.

(** On numbers the three comparisons read off the key. *)
Lemma ltb_key a b :
  isnan a = false -> isnan b = false ->
  (PrimFloat.ltb a b = true <-> key_lt (K a) (K b)).
Proof.
  rewrite !isnan_false. intros Ha Hb.
  rewrite FloatAxioms.ltb_spec. unfold SFltb. rewrite SFcompare_key by assumption.
  rewrite <- key_compare_lt. unfold K.
  destruct (key_compare _ _); split; congruence.
Qed.

Lemma leb_key a b :
  isnan a = false -> isnan b = false ->
  (PrimFloat.leb a b = true <-> ~ key_lt (K b) (K a)).
Proof.
  rewrite !isnan_false. intros Ha Hb.
  rewrite FloatAxioms.leb_spec. unfold SFleb. rewrite SFcompare_key by assumption.
  rewrite <- key_compare_gt. unfold K.
  destruct (key_compare _ _); split; congruence.
Qed.

Lemma eqb_key a b :
  isnan a = false -> isnan b = false ->
  (PrimFloat.eqb a b = true <-> K a = K b).
Proof.
  rewrite !isnan_false. intros Ha Hb.
  rewrite FloatAxioms.eqb_spec. unfold SFeqb. rewrite SFcompare_key by assumption.
  rewrite <- key_compare_eq. unfold K.
  destruct (key_compare _ _); split; congruence.
Qed.

Lemma ltb_nan a b : isnan a = true \/ isnan b = true -> PrimFloat.ltb a b = false.
Proof.
  rewrite !isnan_spec, FloatAxioms.ltb_spec. unfold SFltb.
  intros [-> | ->]; [|destruct (Prim2SF a)]; reflexivity.
Qed.

Lemma leb_nan a b : isnan a = true \/ isnan b = true -> PrimFloat.leb a b = false.
Proof.
  rewrite !isnan_spec, FloatAxioms.leb_spec. unfold SFleb.
  intros [-> | ->]; [|destruct (Prim2SF a)]; reflexivity.
Qed.

Lemma eqb_nan a b : isnan a = true \/ isnan b = true -> PrimFloat.eqb a b = false.
Proof.
  rewrite !isnan_spec, FloatAxioms.eqb_spec. unfold SFeqb.
  intros [-> | ->]; [|destruct (Prim2SF a)]; reflexivity.
Qed.

Lemma ltb_false_key a b :
  isnan a = false -> isnan b = false ->
  (PrimFloat.ltb a b = false <-> ~ key_lt (K a) (K b)).
Proof.
  intros Ha Hb. rewrite <- (ltb_key a b Ha Hb).
  destruct (PrimFloat.ltb a b); split; congruence.
Qed.

Lemma same_number_refl x : same_number x x = true.
Proof. unfold same_number, isnan. destruct (PrimFloat.eqb x x); reflexivity. Qed.

Lemma same_number_key a b :
  isnan a = false -> isnan b = false -> K a = K b -> same_number a b = true.
Proof.
  intros Ha Hb HK. unfold same_number. rewrite Ha. cbn.
  apply eqb_key; assumption.
Qed.

(** Turns the comparisons of numbers in the context into facts about keys
    and leaves linear arithmetic. *)
Ltac key_facts :=
  repeat match goal with
  | H : PrimFloat.ltb ?a ?b = true |- _ => apply ltb_key in H; [ | assumption | assumption ]
  | H : PrimFloat.ltb ?a ?b = false |- _ => apply ltb_false_key in H; [ | assumption | assumption ]
  end.

Ltac key_arith :=
  unfold K in *;
  repeat match goal with
  | |- context [key ?x] => destruct (key x) as [[? ?] ?]
  | H : context [key ?x] |- _ => destruct (key x) as [[? ?] ?]
  end;
  unfold key_lt in *; try (repeat f_equal); lia.

(** [std::min] on NaN: a NaN first argument is returned, a NaN second
    argument is ignored. *)
Lemma std_min_nan_l a b : isnan a = true -> std_min a b = a.
Proof. intros Ha. unfold std_min. rewrite ltb_nan by auto. reflexivity. Qed.

Lemma std_min_nan_r a b : isnan b = true -> std_min a b = a.
Proof. intros Hb. unfold std_min. rewrite ltb_nan by auto. reflexivity. Qed.

Lemma std_min_cases a b : std_min a b = a \/ std_min a b = b.
Proof. unfold std_min. destruct (PrimFloat.ltb b a); auto. Qed.

Lemma std_min_isnan a b : isnan b = false -> isnan (std_min a b) = isnan a.
Proof.
  intros Hb. unfold std_min. destruct (PrimFloat.ltb b a) eqn:E; [|reflexivity].
  destruct (isnan a) eqn:Ha; [|assumption].
  rewrite ltb_nan in E by auto. discriminate.
Qed.

(** On numbers [std::min] is a lower bound of both arguments. *)
Lemma std_min_le a b :
  isnan a = false -> isnan b = false ->
  double_le (std_min a b) a /\ double_le (std_min a b) b.
Proof.
  intros Ha Hb. unfold std_min, double_le.
  destruct (PrimFloat.ltb b a) eqn:E; key_facts;
    (split; apply leb_key; try assumption; key_arith).
Qed.

(** Clamping with [r] then [c], or with [c] then [r], gives the same
    number. *)
Lemma std_min_swap v r c :
  same_number (std_min (std_min v r) c) (std_min (std_min v c) r) = true.
Proof.
  destruct (isnan v) eqn:Hv.
  { rewrite !(std_min_nan_l v) by assumption.
    apply same_number_refl. }
  destruct (isnan r) eqn:Hr.
  { rewrite !(std_min_nan_r _ r) by assumption. apply same_number_refl. }
  destruct (isnan c) eqn:Hc.
  { rewrite !(std_min_nan_r _ c) by assumption. apply same_number_refl. }
  unfold std_min.
  destruct (PrimFloat.ltb r v) eqn:E1, (PrimFloat.ltb c v) eqn:E2;
    repeat match goal with
    | |- context [PrimFloat.ltb ?a ?b] => destruct (PrimFloat.ltb a b) eqn:?
    end;
    key_facts; first [ apply same_number_refl | apply same_number_key; try assumption; key_arith ].
Qed.

(** Numbers that are the same are the same double, unless both are zeros
    (of either sign). *)
Lemma key_inj x y :
  x <> S754_nan -> y <> S754_nan -> key x = key y ->
  x = y \/ (exists s t, x = S754_zero s /\ y = S754_zero t).
Proof.
  intros Hx Hy.
  destruct x as [sx | [|] | | [|] mx ex], y as [sy | [|] | | [|] my ey];
    try congruence; cbn; intros H; try discriminate H; eauto.
  - left. injection H as H1 H2. f_equal; lia.
  - left. injection H as H1 H2. f_equal; lia.
Qed.

Lemma Prim2SF_inj x y : Prim2SF x = Prim2SF y -> x = y.
Proof.
  intros H. rewrite <- (SF2Prim_Prim2SF x), <- (SF2Prim_Prim2SF y), H. reflexivity.
Qed.

Lemma same_number_cases x y :
  same_number x y = true ->
  x = y \/ (PrimFloat.eqb x 0 = true /\ PrimFloat.eqb y 0 = true).
Proof.
  unfold same_number. intros H. apply orb_true_iff in H as [H | H].
  - apply andb_true_iff in H as [Hx Hy]. apply isnan_spec in Hx, Hy.
    left. apply Prim2SF_inj. congruence.
  - destruct (isnan x) eqn:Hx; [rewrite eqb_nan in H by auto; discriminate|].
    destruct (isnan y) eqn:Hy; [rewrite eqb_nan in H by auto; discriminate|].
    apply eqb_key in H; try assumption.
    apply isnan_false in Hx, Hy.
    destruct (key_inj _ _ Hx Hy H) as [Heq | (s & t & Hs & Ht)].
    + left. apply Prim2SF_inj, Heq.
    + right. rewrite !FloatAxioms.eqb_spec, Hs, Ht. split; reflexivity.
Qed.

(* ------------------------------------------------------------------ *)
(** ** The loop of the stages *)

Section Loop.
Context {Src : Type}.
Implicit Types (w : World Src) (body : Z -> M Src unit).

(** Invariant rule for the counted loop. *)
Lemma for_loop_inv (I : Z -> World Src -> Prop) body n i w :
  I i w ->
  (forall j w', i <= j < i + Z.of_nat n -> I j w' -> I (j + 1) (snd (body j w'))) ->
  I (i + Z.of_nat n) (snd (for_loop n i body w)).
Proof.
  revert i w. induction n as [|n IH]; intros i w Hi Hstep.
  - cbn. replace (i + Z.of_nat 0) with i by lia. exact Hi.
  - cbn [for_loop]. unfold bind. destruct (body i w) as [u w1] eqn:E.
    replace (i + Z.of_nat (S n)) with ((i + 1) + Z.of_nat n) by lia.
    apply IH.
    + specialize (Hstep i w). rewrite E in Hstep. apply Hstep; [lia | assumption].
    + intros j w' Hj. apply Hstep. lia.
Qed.

(** Two loops whose bodies agree on every world agree. *)
Lemma for_loop_ext body body' n i w :
  (forall j w', body j w' = body' j w') ->
  for_loop n i body w = for_loop n i body' w.
Proof.
  intros Hb. revert i w. induction n as [|n IH]; intros i w; [reflexivity|].
  cbn [for_loop]. unfold bind. rewrite Hb. destruct (body' i w). apply IH.
Qed.

(** A loop whose [j]-th iteration clamps entry [j] with [par j] after the
    look-ups [ev j] clamps the first [n] entries, in order, and touches
    nothing else. *)
Lemma for_loop_clamps (par : nat -> double) (ev : nat -> list Lookup) body n w1 :
  (forall j w', 0 <= j -> row_data (chunk w') = row_data (chunk w1) ->
     current_col (chunk w') = current_col (chunk w1) ->
     snd (body j w') = clamp_entry (par (Z.to_nat j)) (ev (Z.to_nat j)) j w') ->
  let w2 := snd (for_loop n 0 body w1) in
  source w2 = source w1 /\
  row_data (chunk w2) = row_data (chunk w1) /\
  cap (chunk w2) = cap (chunk w1) /\
  current_col (chunk w2) = current_col (chunk w1) /\
  length (val_data (chunk w2)) = length (val_data (chunk w1)) /\
  lookups w2 = lookups w1 ++ concat (map ev (seq 0 n)) /\
  forall (k : nat) (v : double),
    val_data (chunk w1) !! k = Some v ->
    val_data (chunk w2) !! k = Some (if decide (k < n)%nat then std_min v (par k) else v).
Proof.
  intros Hbody w2. subst w2.
  pose (I := fun (j : Z) (w' : World Src) =>
    0 <= j /\
    source w' = source w1 /\
    row_data (chunk w') = row_data (chunk w1) /\
    cap (chunk w') = cap (chunk w1) /\
    current_col (chunk w') = current_col (chunk w1) /\
    length (val_data (chunk w')) = length (val_data (chunk w1)) /\
    lookups w' = lookups w1 ++ concat (map ev (seq 0 (Z.to_nat j))) /\
    forall (k : nat) (v : double),
      val_data (chunk w1) !! k = Some v ->
      val_data (chunk w') !! k
      = Some (if decide (k < Z.to_nat j)%nat then std_min v (par k) else v)).
  assert (HI : I (0 + Z.of_nat n) (snd (for_loop n 0 body w1))).
  { apply for_loop_inv.
    - unfold I. cbn. rewrite app_nil_r. repeat split; try reflexivity.
      intros k v Hk. rewrite Hk. destruct (decide (k < 0)%nat); [lia | reflexivity].
    - intros j w' Hj (H0 & Hs & Hr & Hc & Hcol & Hlen & Hlk & Hval).
      rewrite Hbody by assumption. unfold I, clamp_entry.
      cbn [chunk source lookups val_data row_data cap current_col default].
      replace (Z.to_nat (j + 1)) with (S (Z.to_nat j)) by lia.
      repeat split; try assumption; try lia.
      + rewrite length_insert. exact Hlen.
      + rewrite Hlk, seq_S, map_app, concat_app. cbn.
        rewrite app_nil_r, app_assoc. reflexivity.
      + intros k v Hk. specialize (Hval k v Hk).
        destruct (decide (k = Z.to_nat j)) as [-> | Hne].
        * rewrite list_lookup_insert_eq by (apply lookup_lt_Some in Hval; exact Hval).
          rewrite Hval.
          destruct (decide (Z.to_nat j < Z.to_nat j)%nat); [lia|].
          destruct (decide (Z.to_nat j < S (Z.to_nat j))%nat); [reflexivity | lia].
        * rewrite list_lookup_insert_ne by congruence. rewrite Hval.
          destruct (decide (k < Z.to_nat j)%nat), (decide (k < S (Z.to_nat j))%nat);
            try reflexivity; lia. }
  destruct HI as (_ & HI).
  replace (Z.to_nat (0 + Z.of_nat n)) with n in HI by lia. exact HI.
Qed.

End Loop.

(* ------------------------------------------------------------------ *)
(** ** What one [load()] of a stage does *)

Section Stages.
Context {Src : Type}.
Implicit Types (w : World Src) (loader : Loader Src) (fit : TransformFit).

Lemma concat_singletons {A B} (f : A -> B) (l : list A) :
  concat (map (fun a => [f a]) l) = map f l.
Proof. induction l as [|a l IH]; cbn; [reflexivity | rewrite IH; reflexivity]. Qed.

Lemma concat_nils {A B} (l : list A) :
  concat (map (fun _ => @nil B) l) = [].
Proof. induction l as [|a l IH]; cbn; [reflexivity | exact IH]. Qed.

Lemma map_const_seq {B} (x : B) (i n : nat) :
  map (fun _ => x) (seq i n) = replicate n x.
Proof. revert i. induction n as [|n IH]; intros i; cbn; [reflexivity | rewrite IH; reflexivity]. Qed.

(** Upstream failure: the stage returns false and hands back the world
    exactly as the upstream left it. *)
Lemma stage_load_false (k : MinStage) fit loader w w1 :
  loader w = (false, w1) ->
  stage_load k fit loader w = (false, w1).
Proof.
  intros Hl. destruct k; cbn [stage_load];
    unfold Min.load, MinByRow.load, MinByCol.load, bind; rewrite Hl; reflexivity.
Qed.

(** Upstream success: the stage returns true, clamps the first
    [capacity()] entries and makes exactly the look-ups [stage_lookups]. *)
Lemma stage_load_true (k : MinStage) fit loader w w1 :
  loader w = (true, w1) ->
  let w2 := snd (stage_load k fit loader w) in
  fst (stage_load k fit loader w) = true /\
  source w2 = source w1 /\
  row_data (chunk w2) = row_data (chunk w1) /\
  cap (chunk w2) = cap (chunk w1) /\
  current_col (chunk w2) = current_col (chunk w1) /\
  length (val_data (chunk w2)) = length (val_data (chunk w1)) /\
  lookups w2 = lookups w1 ++ stage_lookups k (chunk w1) /\
  forall (i : nat) (v : double),
    val_data (chunk w1) !! i = Some v ->
    val_data (chunk w2) !! i
    = Some (if decide (i < Z.to_nat (cap (chunk w1)))%nat
            then std_min v (stage_param k fit (chunk w1) i) else v).
Proof.
  intros Hl. destruct k; cbn [stage_load stage_param stage_lookups].
  - unfold Min.load, bind. rewrite Hl. cbn [negb capacity]. unfold for_upto.
    destruct (for_loop_clamps (fun _ => global_params fit 0) (fun _ => [GlobalParams 0])
                (fun i => let! v := val_get i in
                          let! p := fit_global_params fit 0 in
                          val_set i (std_min v p))
                (Z.to_nat (cap (chunk w1))) w1) as (Hs & Hr & Hc & Hcol & Hlen & Hlk & Hval).
    { intros j w' _ _ _. reflexivity. }
    destruct (for_loop _ _ _ w1) as [u w2] eqn:E. cbn [fst snd ret] in *.
    rewrite concat_singletons, map_const_seq in Hlk.
    repeat split; assumption.
  - unfold MinByRow.load, bind. rewrite Hl. cbn [negb capacity]. unfold for_upto.
    destruct (for_loop_clamps (fun i => row_params fit 0 (default 0 (row_data (chunk w1) !! i)))
                (fun i => [RowParams 0 (default 0 (row_data (chunk w1) !! i))])
                (fun i => let! v := val_get i in
                          let! r := row_get i in
                          let! p := fit_row_params fit 0 r in
                          val_set i (std_min v p))
                (Z.to_nat (cap (chunk w1))) w1) as (Hs & Hr & Hc & Hcol & Hlen & Hlk & Hval).
    { intros j w' _ Hrow _. unfold bind, val_get, row_get, fit_row_params, val_set, clamp_entry.
      cbn [fst snd chunk source lookups val_data row_data cap current_col].
      rewrite Hrow. reflexivity. }
    destruct (for_loop _ _ _ w1) as [u w2] eqn:E. cbn [fst snd ret] in *.
    rewrite (concat_singletons (fun i => RowParams 0 (default 0 (row_data (chunk w1) !! i)))) in Hlk.
    repeat split; assumption.
  - unfold MinByCol.load, bind. rewrite Hl.
    cbn [negb capacity currentCol fit_col_params]. unfold for_upto.
    set (w1' := mkWorld (source w1) (chunk w1) (lookups w1 ++ [ColParams 0 (current_col (chunk w1))])).
    destruct (for_loop_clamps (fun _ => col_params fit 0 (current_col (chunk w1)))
                (fun _ => [])
                (fun i => let! v := val_get i in
                          val_set i (std_min v (col_params fit 0 (current_col (chunk w1)))))
                (Z.to_nat (cap (chunk w1))) w1') as (Hs & Hr & Hc & Hcol & Hlen & Hlk & Hval).
    { intros j w' _ _ _. unfold bind, val_get, val_set, clamp_entry.
      cbn [fst snd chunk source lookups val_data row_data cap current_col].
      rewrite app_nil_r. destruct w'; reflexivity. }
    destruct (for_loop _ _ _ w1') as [u w2] eqn:E. cbn [fst snd ret] in *.
    rewrite concat_nils, app_nil_r in Hlk.
    repeat split; assumption.
Qed.

End Stages.

(* ------------------------------------------------------------------ *)
(** ** The values a stage produces *)

Section Values.
Context {Src : Type}.
Implicit Types (w : World Src) (loader : Loader Src) (fit : TransformFit).

(** The value of entry [i] after a successful [load()] of any stage. *)
Lemma stage_load_entry (k : MinStage) fit loader w w1 (i : nat) (v : double) :
  loader w = (true, w1) ->
  Z.of_nat i < cap (chunk w1) ->
  val_data (chunk w1) !! i = Some v ->
  val_data (chunk (snd (stage_load k fit loader w))) !! i
  = Some (std_min v (stage_param k fit (chunk w1) i)).
Proof.
  intros Hl Hi Hv.
  destruct (stage_load_true k fit loader w w1 Hl) as (_ & _ & _ & _ & _ & _ & _ & Hval).
  rewrite (Hval i v Hv).
  destruct (decide (i < Z.to_nat (cap (chunk w1)))%nat); [reflexivity | lia].
Qed.

(** C1 (as amended). After a successful [load()] of a global-mode minimum
    stage, entry [i] holds [std::min(original[i], p)] for
    [p = fit.global_params(0)]. The result is [<=] the original value and
    [<= p] whenever neither of the two is NaN; a NaN value stays as it
    is, and a NaN parameter leaves the value unchanged. *)
Theorem Min_load_clamps fit loader w w1 (i : nat) (v : double) :
  loader w = (true, w1) ->
  Z.of_nat i < cap (chunk w1) ->
  val_data (chunk w1) !! i = Some v ->
  exists r : double,
    val_data (chunk (snd (Min.load fit loader w))) !! i = Some r /\
    r = std_min v (global_params fit 0) /\
    (isnan v = false -> isnan (global_params fit 0) = false ->
       double_le r v /\ double_le r (global_params fit 0)) /\
    (isnan v = true -> r = v) /\
    (isnan (global_params fit 0) = true -> r = v).
Proof.
  intros Hl Hi Hv. exists (std_min v (global_params fit 0)).
  split; [exact (stage_load_entry StageMin fit loader w w1 i v Hl Hi Hv)|].
  split; [reflexivity|]. split; [|split].
  - apply std_min_le.
  - apply std_min_nan_l.
  - apply std_min_nan_r.
Qed.

(** C2. After a successful [load()] of a per-row minimum stage, entry [i]
    holds [std::min(original[i], fit.row_params(0, rowIndex[i]))]. Two
    entries of the same row get the same parameter, whichever chunks,
    columns and positions they are in. *)
Theorem MinByRow_load_clamps fit loader w w1 loader' w' w1'
    (i i' : nat) (v v' : double) (r : Z) :
  loader w = (true, w1) ->
  Z.of_nat i < cap (chunk w1) ->
  val_data (chunk w1) !! i = Some v ->
  row_data (chunk w1) !! i = Some r ->
  loader' w' = (true, w1') ->
  Z.of_nat i' < cap (chunk w1') ->
  val_data (chunk w1') !! i' = Some v' ->
  row_data (chunk w1') !! i' = Some r ->
  val_data (chunk (snd (MinByRow.load fit loader w))) !! i
  = Some (std_min v (row_params fit 0 r)) /\
  val_data (chunk (snd (MinByRow.load fit loader' w'))) !! i'
  = Some (std_min v' (row_params fit 0 r)).
Proof.
  intros Hl Hi Hv Hr Hl' Hi' Hv' Hr'. split.
  - pose proof (stage_load_entry StageMinByRow fit loader w w1 i v Hl Hi Hv) as H.
    cbn [stage_load stage_param] in H. rewrite Hr in H. exact H.
  - pose proof (stage_load_entry StageMinByRow fit loader' w' w1' i' v' Hl' Hi' Hv') as H.
    cbn [stage_load stage_param] in H. rewrite Hr' in H. exact H.
Qed.

(** C3. A successful [load()] of a per-column minimum stage reads
    [fit.col_params(0, currentCol())] exactly once and clamps every entry
    of the chunk with that one parameter. Chunks of different columns may
    get different parameters: run over [two_columns], the value 5 becomes
    4 in column 0 and 2 in column 1. *)
Theorem MinByCol_load_clamps fit loader w w1 :
  loader w = (true, w1) ->
  let w2 := snd (MinByCol.load fit loader w) in
  let col_min := col_params fit 0 (current_col (chunk w1)) in
  (forall (i : nat) (v : double),
     Z.of_nat i < cap (chunk w1) ->
     val_data (chunk w1) !! i = Some v ->
     val_data (chunk w2) !! i = Some (std_min v col_min)) /\
  lookups w2 = lookups w1 ++ [ColParams 0 (current_col (chunk w1))] /\
  (let first := snd (MinByCol.load two_columns_fit ListSource.load (ListSource.start two_columns)) in
   let second := snd (MinByCol.load two_columns_fit ListSource.load first) in
   val_data (chunk first) = [4%float] /\ val_data (chunk second) = [2%float]).
Proof.
  intros Hl w2 col_min. split; [|split].
  - intros i v Hi Hv.
    exact (stage_load_entry StageMinByCol fit loader w w1 i v Hl Hi Hv).
  - destruct (stage_load_true StageMinByCol fit loader w w1 Hl)
      as (_ & _ & _ & _ & _ & _ & Hlk & _). exact Hlk.
  - vm_compute. split; reflexivity.
Qed.

End Values.

(** The scenario chunk, once the list source has handed it out. *)
Lemma scenario_loaded :
  ListSource.load (ListSource.start [scenario_chunk]) = (true, mkWorld [] scenario_chunk []).
Proof. reflexivity. Qed.

Lemma Min_load_clamps_witness :
  exists r : double,
    val_data (chunk (snd (Min.load scenario_fit ListSource.load
                            (ListSource.start [scenario_chunk])))) !! 1%nat = Some r /\
    r = std_min 5%float (global_params scenario_fit 0) /\
    (isnan 5%float = false -> isnan (global_params scenario_fit 0) = false ->
       double_le r 5%float /\ double_le r (global_params scenario_fit 0)) /\
    (isnan 5%float = true -> r = 5%float) /\
    (isnan (global_params scenario_fit 0) = true -> r = 5%float).
Proof.
  apply (Min_load_clamps scenario_fit ListSource.load
           (ListSource.start [scenario_chunk]) scenario_held 1 5%float).
  - reflexivity.
  - cbn. lia.
  - reflexivity.
Defined.

(** C1 as stated fails on a NaN: clamping a chunk that holds a NaN with the
    parameter 1 leaves the NaN, and [NaN <= 1] is false. *)
Lemma Min_load_nan_counterexample :
  ~ (forall (fit : TransformFit) (loader : Loader (list Chunk)) w w1 (i : nat) (v r : double),
       loader w = (true, w1) ->
       Z.of_nat i < cap (chunk w1) ->
       val_data (chunk w1) !! i = Some v ->
       val_data (chunk (snd (Min.load fit loader w))) !! i = Some r ->
       r = std_min v (global_params fit 0) /\ double_le r v /\ double_le r (global_params fit 0)).
Proof.
  intros H.
  destruct (H (mkFit (fun _ _ => 1%float) (fun _ _ => 1%float) (fun _ => 1%float))
              ListSource.load
              (ListSource.start [mkChunk [nan] [0] 1 0])
              (mkWorld [] (mkChunk [nan] [0] 1 0) [])
              0%nat nan nan) as (_ & _ & Hle).
  - reflexivity.
  - cbn. lia.
  - reflexivity.
  - vm_compute. reflexivity.
  - vm_compute in Hle. discriminate Hle.
Qed.

Lemma MinByRow_load_clamps_witness :
  val_data (chunk (snd (MinByRow.load scenario_fit ListSource.load
                          (ListSource.start [scenario_chunk])))) !! 2%nat
  = Some (std_min 3%float (row_params scenario_fit 0 4)) /\
  val_data (chunk (snd (MinByRow.load scenario_fit ListSource.load
                          (ListSource.start [mkChunk [7%float; 8%float] [4; 1] 2 6])))) !! 0%nat
  = Some (std_min 7%float (row_params scenario_fit 0 4)).
Proof.
  apply (MinByRow_load_clamps scenario_fit
           ListSource.load (ListSource.start [scenario_chunk]) scenario_held
           ListSource.load (ListSource.start [mkChunk [7%float; 8%float] [4; 1] 2 6])
           (mkWorld [] (mkChunk [7%float; 8%float] [4; 1] 2 6) [])
           2 0 3%float 7%float 4);
    first [reflexivity | cbn; lia].
Defined.

Lemma MinByCol_load_clamps_witness :
  let w1 := scenario_held in
  let w2 := snd (MinByCol.load scenario_fit ListSource.load (ListSource.start [scenario_chunk])) in
  let col_min := col_params scenario_fit 0 (current_col (chunk w1)) in
  (forall (i : nat) (v : double),
     Z.of_nat i < cap (chunk w1) ->
     val_data (chunk w1) !! i = Some v ->
     val_data (chunk w2) !! i = Some (std_min v col_min)) /\
  lookups w2 = lookups w1 ++ [ColParams 0 (current_col (chunk w1))] /\
  (let first := snd (MinByCol.load two_columns_fit ListSource.load (ListSource.start two_columns)) in
   let second := snd (MinByCol.load two_columns_fit ListSource.load first) in
   val_data (chunk first) = [4%float] /\ val_data (chunk second) = [2%float]).
Proof.
  apply (MinByCol_load_clamps scenario_fit ListSource.load
           (ListSource.start [scenario_chunk]) scenario_held).
  reflexivity.
Defined.

(* ------------------------------------------------------------------ *)
(** ** Chains of two stages *)

Section Chains.
Context {Src : Type}.
Implicit Types (w : World Src) (loader : Loader Src) (fit : TransformFit).

Lemma stage_param_frame (k : MinStage) fit (c c' : Chunk) (i : nat) :
  row_data c = row_data c' -> current_col c = current_col c' ->
  stage_param k fit c i = stage_param k fit c' i.
Proof. intros Hr Hc. destruct k; cbn; rewrite ?Hr, ?Hc; reflexivity. Qed.

Lemma stage_lookups_frame (k : MinStage) (c c' : Chunk) :
  row_data c = row_data c' -> cap c = cap c' -> current_col c = current_col c' ->
  stage_lookups k c = stage_lookups k c'.
Proof. intros Hr Hn Hc. destruct k; cbn; rewrite ?Hr, ?Hn, ?Hc; reflexivity. Qed.

(** A stage wrapped around another: the inner stage clamps first, the
    outer stage clamps what the inner one left; the look-ups are made in
    the same order. *)
Lemma chain_load_true (k_in k_out : MinStage) fit_in fit_out loader w w1 :
  loader w = (true, w1) ->
  let w3 := snd (stage_load k_out fit_out (stage_load k_in fit_in loader) w) in
  fst (stage_load k_out fit_out (stage_load k_in fit_in loader) w) = true /\
  length (val_data (chunk w3)) = length (val_data (chunk w1)) /\
  lookups w3 = lookups w1 ++ stage_lookups k_in (chunk w1) ++ stage_lookups k_out (chunk w1) /\
  forall (i : nat) (v : double),
    val_data (chunk w1) !! i = Some v ->
    val_data (chunk w3) !! i
    = Some (if decide (i < Z.to_nat (cap (chunk w1)))%nat
            then std_min (std_min v (stage_param k_in fit_in (chunk w1) i))
                         (stage_param k_out fit_out (chunk w1) i)
            else v).
Proof.
  intros Hl.
  destruct (stage_load_true k_in fit_in loader w w1 Hl)
    as (Hok & _ & Hr & Hc & Hcol & Hlen & Hlk & Hval).
  destruct (stage_load k_in fit_in loader w) as [ok w2] eqn:E2.
  cbn [fst snd] in *. subst ok.
  destruct (stage_load_true k_out fit_out (stage_load k_in fit_in loader) w w2 E2)
    as (Hok' & _ & _ & _ & _ & Hlen' & Hlk' & Hval').
  cbn zeta. repeat split.
  - exact Hok'.
  - rewrite Hlen'. exact Hlen.
  - rewrite Hlk', Hlk, <- app_assoc.
    rewrite (stage_lookups_frame k_out (chunk w2) (chunk w1)) by assumption. reflexivity.
  - intros i v Hv. rewrite (Hval' i _ (Hval i v Hv)), Hc.
    rewrite (stage_param_frame k_out fit_out (chunk w2) (chunk w1)) by assumption.
    destruct (decide (i < Z.to_nat (cap (chunk w1)))%nat); reflexivity.
Qed.

Lemma chain_load_false (k_in k_out : MinStage) fit_in fit_out loader w w1 :
  loader w = (false, w1) ->
  stage_load k_out fit_out (stage_load k_in fit_in loader) w = (false, w1).
Proof. intros Hl. apply stage_load_false, stage_load_false, Hl. Qed.

(** Whatever the upstream does, the two orders of a per-row and a
    per-column stage leave arrays of one length that hold the same number
    at every entry. *)
Lemma chain_order_same_number fitR fitC loader w :
  let rc := val_data (chunk (snd (MinByCol.load fitC (MinByRow.load fitR loader) w))) in
  let cr := val_data (chunk (snd (MinByRow.load fitR (MinByCol.load fitC loader) w))) in
  length rc = length cr /\
  forall (i : nat) (x y : double),
    rc !! i = Some x -> cr !! i = Some y -> same_number x y = true.
Proof.
  destruct (loader w) as [[|] w1] eqn:Hl.
  - destruct (chain_load_true StageMinByRow StageMinByCol fitR fitC loader w w1 Hl)
      as (_ & Hlen1 & _ & Hv1).
    destruct (chain_load_true StageMinByCol StageMinByRow fitC fitR loader w w1 Hl)
      as (_ & Hlen2 & _ & Hv2).
    cbn [stage_load] in *. cbn zeta. split; [congruence|].
    intros i x y Hx Hy.
    destruct (val_data (chunk w1) !! i) as [v|] eqn:Hv.
    + rewrite (Hv1 i v Hv) in Hx. rewrite (Hv2 i v Hv) in Hy.
      injection Hx as <-. injection Hy as <-.
      destruct (decide (i < Z.to_nat (cap (chunk w1)))%nat).
      * apply std_min_swap.
      * apply same_number_refl.
    + apply lookup_lt_Some in Hx. apply lookup_ge_None in Hv. lia.
  - pose proof (chain_load_false StageMinByRow StageMinByCol fitR fitC loader w w1 Hl) as H1.
    pose proof (chain_load_false StageMinByCol StageMinByRow fitC fitR loader w w1 Hl) as H2.
    cbn [stage_load] in *. rewrite H1, H2. cbn. split; [reflexivity|].
    intros i x y Hx Hy. rewrite Hx in Hy. injection Hy as <-. apply same_number_refl.
Qed.

(** A per-row and a per-column stage wrapped in the two orders around a
    successful upstream: each chain clamps with its inner stage first and
    makes the look-ups of the inner stage first; the two value arrays hold
    the same number at every entry, and the same double unless both
    results are zeros. *)
Lemma chain_order_wrap fitR fitC loader w w1 :
  loader w = (true, w1) ->
  let rc := snd (MinByCol.load fitC (MinByRow.load fitR loader) w) in
  let cr := snd (MinByRow.load fitR (MinByCol.load fitC loader) w) in
  let col_min := col_params fitC 0 (current_col (chunk w1)) in
  (forall (i : nat) (v : double) (r : Z),
     Z.of_nat i < cap (chunk w1) ->
     val_data (chunk w1) !! i = Some v ->
     row_data (chunk w1) !! i = Some r ->
     val_data (chunk rc) !! i = Some (std_min (std_min v (row_params fitR 0 r)) col_min) /\
     val_data (chunk cr) !! i = Some (std_min (std_min v col_min) (row_params fitR 0 r))) /\
  lookups rc = lookups w1 ++ stage_lookups StageMinByRow (chunk w1)
                          ++ [ColParams 0 (current_col (chunk w1))] /\
  lookups cr = lookups w1 ++ [ColParams 0 (current_col (chunk w1))]
                          ++ stage_lookups StageMinByRow (chunk w1) /\
  length (val_data (chunk rc)) = length (val_data (chunk cr)) /\
  forall (i : nat) (x y : double),
    val_data (chunk rc) !! i = Some x ->
    val_data (chunk cr) !! i = Some y ->
    same_number x y = true /\
    (x = y \/ (PrimFloat.eqb x 0 = true /\ PrimFloat.eqb y 0 = true)).
Proof.
  intros Hl rc cr col_min.
  destruct (chain_load_true StageMinByRow StageMinByCol fitR fitC loader w w1 Hl)
    as (_ & _ & Hlk1 & Hv1).
  destruct (chain_load_true StageMinByCol StageMinByRow fitC fitR loader w w1 Hl)
    as (_ & _ & Hlk2 & Hv2).
  cbn [stage_load] in *.
  split; [|split; [exact Hlk1 | split; [exact Hlk2 |]]].
  2: { destruct (chain_order_same_number fitR fitC loader w) as [Hlen Hsame].
       split; [exact Hlen|]. intros i x y Hx Hy.
       pose proof (Hsame i x y Hx Hy) as Hn.
       split; [exact Hn | apply same_number_cases, Hn]. }
  intros i v r Hi Hv Hr. subst rc cr col_min.
  rewrite (Hv1 i v Hv), (Hv2 i v Hv). cbn [stage_param]. rewrite Hr.
  destruct (decide (i < Z.to_nat (cap (chunk w1)))%nat); [split; reflexivity | lia].
Qed.

End Chains.

(** No chunk, no parameters and no upstream make the two orders produce
    arrays that hold different numbers anywhere. *)
Lemma chain_order_same_numbers :
  ~ (exists (Src : Type) (fitR fitC : TransformFit) (loader : Loader Src) (w : World Src)
            (i : nat) (x y : double),
       val_data (chunk (snd (MinByCol.load fitC (MinByRow.load fitR loader) w))) !! i = Some x /\
       val_data (chunk (snd (MinByRow.load fitR (MinByCol.load fitC loader) w))) !! i = Some y /\
       same_number x y = false).
Proof.
  intros (Src & fitR & fitC & loader & w & i & x & y & Hx & Hy & Hne).
  destruct (chain_order_same_number fitR fitC loader w) as [_ Hsame].
  rewrite (Hsame i x y Hx Hy) in Hne. discriminate Hne.
Qed.

(** What the order can change is the sign of a zero, which [==] does not
    see: with row parameter [+0] and column parameter [-0] the value 1
    becomes [+0] when the row stage runs first and [-0] when the column
    stage runs first. *)
Lemma chain_order_signed_zero :
  let fit := mkFit (fun _ _ => 0%float) (fun _ _ => (-0)%float) (fun _ => 0%float) in
  let w := ListSource.start [mkChunk [1%float] [0] 1 0] in
  val_data (chunk (snd (MinByCol.load fit (MinByRow.load fit ListSource.load) w))) = [0%float] /\
  val_data (chunk (snd (MinByRow.load fit (MinByCol.load fit ListSource.load) w))) = [(-0)%float] /\
  PrimFloat.eqb 0 (-0) = true /\
  0%float <> (-0)%float.
Proof.
  vm_compute. repeat split. intros H.
  assert (Hd : (1 / 0 = 1 / -0)%float) by (rewrite H at 1; reflexivity).
  vm_compute in Hd. discriminate Hd.
Qed.

(** With parameters one of which is strictly below the other, the two
    orders of clamping give the same double. *)
Lemma std_min_swap_strict v r c :
  PrimFloat.ltb r c = true ->
  std_min (std_min v r) c = std_min (std_min v c) r.
Proof.
  intros Hrc.
  destruct (isnan r) eqn:Hr; [rewrite ltb_nan in Hrc by auto; discriminate Hrc|].
  destruct (isnan c) eqn:Hc; [rewrite ltb_nan in Hrc by auto; discriminate Hrc|].
  destruct (isnan v) eqn:Hv.
  { rewrite !(std_min_nan_l v) by assumption. reflexivity. }
  unfold std_min.
  destruct (PrimFloat.ltb r v) eqn:E1, (PrimFloat.ltb c v) eqn:E2;
    repeat match goal with
    | |- context [PrimFloat.ltb ?a ?b] => destruct (PrimFloat.ltb a b) eqn:?
    end;
    first [ reflexivity | exfalso; key_facts; key_arith ].
Qed.

(** C4. Chain order matters for the minimum stages: there are a chunk and
    per-row and per-column parameters for which minimum-by-row then
    minimum-by-column leaves a different value array than the reverse order
    (the value 1 with row parameter [+0] and column parameter [-0] becomes
    [+0] one way and [-0] the other). Stages apply in the wrap order, the
    outermost last: with the per-column stage outermost entry [i] is
    [min(min(original, row parameter), column parameter)] and the row
    look-ups come before the column look-up; with the per-row stage
    outermost it is the other way round. The order is without effect on an
    entry whose two parameters are strictly ordered; it never changes the
    number an entry holds, and changes the double only where both results
    are zeros. *)
Theorem chain_order_matters :
  (exists (fitR fitC : TransformFit) (c : Chunk),
     val_data (chunk (snd (MinByCol.load fitC (MinByRow.load fitR ListSource.load)
                             (ListSource.start [c]))))
     <> val_data (chunk (snd (MinByRow.load fitR (MinByCol.load fitC ListSource.load)
                                (ListSource.start [c]))))) /\
  (forall (Src : Type) (fitR fitC : TransformFit) (loader : Loader Src) (w w1 : World Src),
     loader w = (true, w1) ->
     let rc := snd (MinByCol.load fitC (MinByRow.load fitR loader) w) in
     let cr := snd (MinByRow.load fitR (MinByCol.load fitC loader) w) in
     let col_min := col_params fitC 0 (current_col (chunk w1)) in
     (forall (i : nat) (v : double) (r : Z),
        Z.of_nat i < cap (chunk w1) ->
        val_data (chunk w1) !! i = Some v ->
        row_data (chunk w1) !! i = Some r ->
        val_data (chunk rc) !! i = Some (std_min (std_min v (row_params fitR 0 r)) col_min) /\
        val_data (chunk cr) !! i = Some (std_min (std_min v col_min) (row_params fitR 0 r)) /\
        (PrimFloat.ltb (row_params fitR 0 r) col_min = true \/
         PrimFloat.ltb col_min (row_params fitR 0 r) = true ->
         val_data (chunk rc) !! i = val_data (chunk cr) !! i)) /\
     lookups rc = lookups w1 ++ stage_lookups StageMinByRow (chunk w1)
                             ++ [ColParams 0 (current_col (chunk w1))] /\
     lookups cr = lookups w1 ++ [ColParams 0 (current_col (chunk w1))]
                             ++ stage_lookups StageMinByRow (chunk w1) /\
     length (val_data (chunk rc)) = length (val_data (chunk cr)) /\
     forall (i : nat) (x y : double),
       val_data (chunk rc) !! i = Some x ->
       val_data (chunk cr) !! i = Some y ->
       same_number x y = true /\
       (x = y \/ (PrimFloat.eqb x 0 = true /\ PrimFloat.eqb y 0 = true))).
Proof.
  split.
  - pose proof chain_order_signed_zero as Hz. cbv zeta in Hz.
    destruct Hz as (Hrc & Hcr & _ & Hne).
    exists (mkFit (fun _ _ => 0%float) (fun _ _ => (-0)%float) (fun _ => 0%float)),
           (mkFit (fun _ _ => 0%float) (fun _ _ => (-0)%float) (fun _ => 0%float)),
           (mkChunk [1%float] [0] 1 0).
    rewrite Hrc, Hcr. intros E. apply Hne.
    exact (f_equal (fun l => match l with x :: _ => x | [] => 0%float end) E).
  - intros Src fitR fitC loader w w1 Hl rc cr col_min.
    destruct (chain_order_wrap fitR fitC loader w w1 Hl) as (Hval & Hrest).
    split; [|exact Hrest].
    intros i v r Hi Hv Hr. destruct (Hval i v r Hi Hv Hr) as [Ha Hb].
    split; [exact Ha | split; [exact Hb|]].
    intros Hord. subst rc cr col_min. rewrite Ha, Hb. f_equal.
    destruct Hord as [Hlt | Hlt].
    + apply std_min_swap_strict, Hlt.
    + symmetry. apply std_min_swap_strict, Hlt.
Qed.

Lemma chain_order_matters_witness :
  let w1 := scenario_held in
  let rc := snd (MinByCol.load scenario_fit (MinByRow.load scenario_fit ListSource.load)
                   (ListSource.start [scenario_chunk])) in
  let cr := snd (MinByRow.load scenario_fit (MinByCol.load scenario_fit ListSource.load)
                   (ListSource.start [scenario_chunk])) in
  let col_min := col_params scenario_fit 0 (current_col (chunk w1)) in
  (forall (i : nat) (v : double) (r : Z),
     Z.of_nat i < cap (chunk w1) ->
     val_data (chunk w1) !! i = Some v ->
     row_data (chunk w1) !! i = Some r ->
     val_data (chunk rc) !! i = Some (std_min (std_min v (row_params scenario_fit 0 r)) col_min) /\
     val_data (chunk cr) !! i = Some (std_min (std_min v col_min) (row_params scenario_fit 0 r)) /\
     (PrimFloat.ltb (row_params scenario_fit 0 r) col_min = true \/
      PrimFloat.ltb col_min (row_params scenario_fit 0 r) = true ->
      val_data (chunk rc) !! i = val_data (chunk cr) !! i)) /\
  lookups rc = lookups w1 ++ stage_lookups StageMinByRow (chunk w1)
                          ++ [ColParams 0 (current_col (chunk w1))] /\
  lookups cr = lookups w1 ++ [ColParams 0 (current_col (chunk w1))]
                          ++ stage_lookups StageMinByRow (chunk w1) /\
  length (val_data (chunk rc)) = length (val_data (chunk cr)) /\
  forall (i : nat) (x y : double),
    val_data (chunk rc) !! i = Some x ->
    val_data (chunk cr) !! i = Some y ->
    same_number x y = true /\
    (x = y \/ (PrimFloat.eqb x 0 = true /\ PrimFloat.eqb y 0 = true)).
Proof.
  apply (proj2 chain_order_matters (list Chunk) scenario_fit scenario_fit ListSource.load
           (ListSource.start [scenario_chunk]) scenario_held).
  reflexivity.
Defined.

(* ------------------------------------------------------------------ *)
(** ** Failure propagation, frame and parameter index *)

Section Protocol.
Context {Src : Type}.
Implicit Types (w : World Src) (loader : Loader Src) (fit : TransformFit).

(** C7. For each of the three stages, [load()] returns what the upstream
    [load()] returned. When that is false the stage hands back the world
    exactly as the upstream left it: no entry of the chunk is written and
    no parameter is looked up. *)
Theorem stage_load_propagates (k : MinStage) fit loader w :
  fst (stage_load k fit loader w) = fst (loader w) /\
  (fst (loader w) = false ->
     fst (stage_load k fit loader w) = false /\
     snd (stage_load k fit loader w) = snd (loader w)) /\
  (fst (loader w) = true -> fst (stage_load k fit loader w) = true).
Proof.
  destruct (loader w) as [[|] w1] eqn:Hl; cbn [fst snd].
  - destruct (stage_load_true k fit loader w w1 Hl) as (Hok & _).
    split; [exact Hok | split; [discriminate | intros _; exact Hok]].
  - rewrite (stage_load_false k fit loader w w1 Hl). cbn [fst snd].
    split; [reflexivity | split; [intros _; split; reflexivity | discriminate]].
Qed.

(** C8. After a successful [load()] of any of the three stages the
    row-index array, the capacity and the current column are what the
    upstream produced; so are the state of the source, the length of the
    value array and every value at or beyond [capacity()]. *)
Theorem stage_load_frame (k : MinStage) fit loader w w1 :
  loader w = (true, w1) ->
  let w2 := snd (stage_load k fit loader w) in
  row_data (chunk w2) = row_data (chunk w1) /\
  cap (chunk w2) = cap (chunk w1) /\
  current_col (chunk w2) = current_col (chunk w1) /\
  source w2 = source w1 /\
  length (val_data (chunk w2)) = length (val_data (chunk w1)) /\
  forall i : nat,
    cap (chunk w1) <= Z.of_nat i ->
    val_data (chunk w2) !! i = val_data (chunk w1) !! i.
Proof.
  intros Hl w2.
  destruct (stage_load_true k fit loader w w1 Hl)
    as (_ & Hs & Hr & Hc & Hcol & Hlen & _ & Hval).
  repeat split; try assumption.
  intros i Hi. destruct (val_data (chunk w1) !! i) as [v|] eqn:Hv.
  - subst w2. rewrite (Hval i v Hv).
    destruct (decide (i < Z.to_nat (cap (chunk w1)))%nat); [lia | reflexivity].
  - apply lookup_ge_None. apply lookup_ge_None in Hv. subst w2. lia.
Qed.

(** Two providers that agree at parameter index 0. *)
Lemma stage_load_ext (k : MinStage) fit fit' loader w :
  global_params fit 0 = global_params fit' 0 ->
  (forall r, row_params fit 0 r = row_params fit' 0 r) ->
  (forall c, col_params fit 0 c = col_params fit' 0 c) ->
  stage_load k fit loader w = stage_load k fit' loader w.
Proof.
  intros Hg Hr Hc. destruct k; cbn [stage_load];
    unfold Min.load, MinByRow.load, MinByCol.load, bind;
    destruct (loader w) as [[|] w1]; cbn [negb]; try reflexivity;
    cbn [capacity currentCol fit_col_params]; unfold for_upto.
  - erewrite for_loop_ext; [reflexivity|].
    intros j w'. unfold bind, val_get, fit_global_params, val_set. cbn. rewrite Hg. reflexivity.
  - erewrite for_loop_ext; [reflexivity|].
    intros j w'. unfold bind, val_get, row_get, fit_row_params, val_set. cbn.
    rewrite Hr. reflexivity.
  - rewrite Hc. reflexivity.
Qed.

(** C9. Every look-up a stage makes is at parameter index 0: a successful
    [load()] of [Min] reads [global_params(0)] once per entry, of
    [MinByRow] reads [row_params(0, row_data[i])] for each entry [i] in
    turn, of [MinByCol] reads [col_params(0, currentCol())] once; a
    failed one reads nothing. The stages take no parameter index, and
    their result depends on the provider at index 0 only. *)
Theorem stage_load_index_zero (k : MinStage) fit loader w :
  (exists evs : list Lookup,
     lookups (snd (stage_load k fit loader w)) = lookups (snd (loader w)) ++ evs /\
     evs = (if fst (loader w) then stage_lookups k (chunk (snd (loader w))) else []) /\
     Forall (fun e => lookup_index e = 0) evs) /\
  (forall c,
     stage_lookups StageMin c = replicate (Z.to_nat (cap c)) (GlobalParams 0) /\
     stage_lookups StageMinByRow c
     = map (fun i => RowParams 0 (default 0 (row_data c !! i))) (seq 0 (Z.to_nat (cap c))) /\
     stage_lookups StageMinByCol c = [ColParams 0 (current_col c)]) /\
  (forall fit',
     global_params fit 0 = global_params fit' 0 ->
     (forall r, row_params fit 0 r = row_params fit' 0 r) ->
     (forall c, col_params fit 0 c = col_params fit' 0 c) ->
     stage_load k fit loader w = stage_load k fit' loader w).
Proof.
  split; [|split].
  - destruct (loader w) as [[|] w1] eqn:Hl; cbn [fst snd].
    + exists (stage_lookups k (chunk w1)).
      destruct (stage_load_true k fit loader w w1 Hl) as (_ & _ & _ & _ & _ & _ & Hlk & _).
      split; [exact Hlk | split; [reflexivity|]].
      destruct k; cbn [stage_lookups].
      * apply Forall_forall. intros e He. apply elem_of_replicate in He as [-> _]. reflexivity.
      * apply Forall_forall. intros e He. apply list_elem_of_fmap in He as (i & -> & _). reflexivity.
      * repeat constructor.
    + exists []. rewrite (stage_load_false k fit loader w w1 Hl). cbn [snd].
      rewrite app_nil_r. repeat split. constructor.
  - intros c. repeat split.
  - intros fit'. apply stage_load_ext.
Qed.

End Protocol.

Lemma stage_load_frame_witness :
  let w1 := scenario_held in
  let w2 := snd (stage_load StageMinByRow scenario_fit ListSource.load
                   (ListSource.start [scenario_chunk])) in
  row_data (chunk w2) = row_data (chunk w1) /\
  cap (chunk w2) = cap (chunk w1) /\
  current_col (chunk w2) = current_col (chunk w1) /\
  source w2 = source w1 /\
  length (val_data (chunk w2)) = length (val_data (chunk w1)) /\
  forall i : nat,
    cap (chunk w1) <= Z.of_nat i ->
    val_data (chunk w2) !! i = val_data (chunk w1) !! i.
Proof.
  apply (stage_load_frame StageMinByRow scenario_fit ListSource.load
           (ListSource.start [scenario_chunk]) scenario_held).
  reflexivity.
Defined.

(* ------------------------------------------------------------------ *)
(** ** Statistics results *)

Module StatsFacts.
Import MatrixStats.

Lemma accessor_at_intro (a : ArrayXXd) (k : nat) (what : string) :
  accessor_at (if rows a <? Z.of_nat (S k) then Throw what else Ok (row a (Z.of_nat k)))
              a k what.
Proof.
  unfold accessor_at, rows, row. rewrite Nat2Z.id.
  destruct (Z.ltb_spec (Z.of_nat (length a)) (Z.of_nat (S k))) as [Hlt | Hge].
  - repeat split; try reflexivity; try lia.
    intros r Hr. apply lookup_lt_Some in Hr. lia.
  - repeat split; try lia; try discriminate.
    intros r Hr. rewrite Hr. reflexivity.
Qed.

(** C5. Each of the six accessors throws its "not calculated" error
    exactly when its array has too few rows for the statistic (fewer than
    1 for the nonzero counts, 2 for the means, 3 for the variances), and
    returns the row of the statistic otherwise; it never returns a value
    in place of a statistic that is absent. *)
Theorem accessors_throw_iff_absent (s : StatsResult) :
  accessor_at (rowNonzeros s) (row_stats s) 0 "Nonzero not calculated in this StatsResult" /\
  accessor_at (rowMean s) (row_stats s) 1 "Mean not calculated in this StatsResult" /\
  accessor_at (rowVariance s) (row_stats s) 2 "Variance not calculated in this StatsResult" /\
  accessor_at (colNonzeros s) (col_stats s) 0 "Nonzero not calculated in this StatsResult" /\
  accessor_at (colMean s) (col_stats s) 1 "Mean not calculated in this StatsResult" /\
  accessor_at (colVariance s) (col_stats s) 2 "Variance not calculated in this StatsResult".
Proof.
  repeat split_and; refine (accessor_at_intro _ _ _).
Qed.

(** A result built with nonzero counting only: [rowVariance()] throws. *)
Example rowVariance_absent :
  rowVariance (mkStatsResult [[3%float; 1%float]] [[2%float; 2%float]])
  = Throw "Variance not calculated in this StatsResult".
Proof. reflexivity. Qed.

(** C6. [transpose()] swaps [row_stats] and [col_stats], and transposing
    twice gives the result back. *)
Theorem transpose_swaps (s : StatsResult) :
  row_stats (transpose s) = col_stats s /\
  col_stats (transpose s) = row_stats s /\
  transpose (transpose s) = s.
Proof. destruct s as [r c]. repeat split. Qed.

(** C10. In each orientation the statistics present form a prefix of
    (nonzeros, mean, variance): where the variance accessor succeeds so do
    the mean and nonzero accessors, and where the mean accessor succeeds
    so does the nonzero accessor. *)
Theorem statistics_form_prefix (s : StatsResult) :
  (succeeds (rowVariance s) = true ->
     succeeds (rowMean s) = true /\ succeeds (rowNonzeros s) = true) /\
  (succeeds (rowMean s) = true -> succeeds (rowNonzeros s) = true) /\
  (succeeds (colVariance s) = true ->
     succeeds (colMean s) = true /\ succeeds (colNonzeros s) = true) /\
  (succeeds (colMean s) = true -> succeeds (colNonzeros s) = true).
Proof.
  unfold rowVariance, rowMean, rowNonzeros, colVariance, colMean, colNonzeros.
  repeat split;
    repeat match goal with
    | |- context [?a <? ?b] => destruct (Z.ltb_spec a b)
    | H : context [?a <? ?b] |- _ => destruct (Z.ltb_spec a b)
    end; cbn in *; try reflexivity; try discriminate; lia.
Qed.

End StatsFacts.

(* ------------------------------------------------------------------ *)
(** * Further properties of the stages *)

(** ** More on [std::min] *)

(** [std::min] returns a NaN exactly when its first argument is one. *)
Lemma std_min_isnan_first a b : isnan (std_min a b) = isnan a.
Proof.
  unfold std_min. destruct (PrimFloat.ltb b a) eqn:E; [|reflexivity].
  destruct (isnan a) eqn:Ha, (isnan b) eqn:Hb;
    try (rewrite ltb_nan in E by auto; discriminate E).
  reflexivity.
Qed.

(** Clamping twice with one parameter is clamping once. *)
Lemma std_min_idem v p : std_min (std_min v p) p = std_min v p.
Proof.
  unfold std_min. destruct (PrimFloat.ltb p v) eqn:E; [|rewrite E; reflexivity].
  destruct (PrimFloat.ltb p p) eqn:Epp; [|reflexivity].
  destruct (isnan p) eqn:Hp; [rewrite ltb_nan in Epp by auto; discriminate Epp|].
  apply ltb_key in Epp; try assumption. exfalso. revert Epp. key_arith.
Qed.

Lemma same_number_sym x y : same_number x y = true -> same_number y x = true.
Proof.
  unfold same_number. destruct (isnan x) eqn:Hx, (isnan y) eqn:Hy; cbn;
    try (rewrite !eqb_nan by auto; discriminate).
  - reflexivity.
  - intros H. apply eqb_key in H; try assumption. apply eqb_key; try assumption.
    symmetry. exact H.
Qed.

Lemma same_number_trans x y z :
  same_number x y = true -> same_number y z = true -> same_number x z = true.
Proof.
  unfold same_number. destruct (isnan x) eqn:Hx, (isnan y) eqn:Hy, (isnan z) eqn:Hz; cbn;
    try (rewrite !eqb_nan by auto; discriminate);
    try (intros _; rewrite !eqb_nan by auto; discriminate);
    try reflexivity.
  intros H1 H2. apply eqb_key in H1, H2; try assumption. apply eqb_key; try assumption.
  congruence.
Qed.

(** Clamping the same number with the same parameter gives the same
    number. *)
Lemma std_min_same_number x y p :
  same_number x y = true -> same_number (std_min x p) (std_min y p) = true.
Proof.
  intros H.
  destruct (isnan x) eqn:Hx.
  { destruct (isnan y) eqn:Hy.
    - rewrite (std_min_nan_l x), (std_min_nan_l y) by assumption. exact H.
    - unfold same_number in H. rewrite Hx, Hy, eqb_nan in H by auto. discriminate H. }
  destruct (isnan y) eqn:Hy.
  { unfold same_number in H. rewrite Hx, Hy, eqb_nan in H by auto. discriminate H. }
  destruct (isnan p) eqn:Hp.
  { rewrite !(std_min_nan_r _ p) by assumption. exact H. }
  unfold same_number in H. rewrite Hx in H. cbn in H. apply eqb_key in H; try assumption.
  unfold std_min.
  destruct (PrimFloat.ltb p x) eqn:E1, (PrimFloat.ltb p y) eqn:E2; key_facts;
    first [ apply same_number_refl
          | apply same_number_key; assumption
          | rewrite H in *; contradiction ].
Qed.

(** Clamping with [p] then [q] is clamping with the smaller of the two,
    when neither parameter is NaN. *)
Lemma std_min_fuse v p q :
  isnan p = false -> isnan q = false ->
  same_number (std_min (std_min v p) q) (std_min v (std_min p q)) = true.
Proof.
  intros Hp Hq.
  destruct (isnan v) eqn:Hv.
  { rewrite !(std_min_nan_l v) by assumption. apply same_number_refl. }
  unfold std_min.
  destruct (PrimFloat.ltb p v) eqn:E1, (PrimFloat.ltb q p) eqn:E2;
    repeat match goal with
    | |- context [PrimFloat.ltb ?a ?b] => destruct (PrimFloat.ltb a b) eqn:?
    end;
    key_facts;
    first [ apply same_number_refl
          | apply same_number_key; try assumption; key_arith ].
Qed.

(** Clamping keeps the order of two values. *)
Lemma std_min_monotone v1 v2 p :
  double_le v1 v2 -> double_le (std_min v1 p) (std_min v2 p).
Proof.
  unfold double_le. intros H.
  destruct (isnan v1) eqn:H1; [rewrite leb_nan in H by auto; discriminate H|].
  destruct (isnan v2) eqn:H2; [rewrite leb_nan in H by auto; discriminate H|].
  destruct (isnan p) eqn:Hp.
  { rewrite !(std_min_nan_r _ p) by assumption. exact H. }
  apply leb_key in H; try assumption.
  unfold std_min.
  destruct (PrimFloat.ltb p v1) eqn:E1, (PrimFloat.ltb p v2) eqn:E2; key_facts;
    apply leb_key; try assumption; revert H; key_arith.
Qed.

(* ------------------------------------------------------------------ *)
(** ** One stage *)

Section MoreOnStages.
Context {Src : Type}.
Implicit Types (w : World Src) (loader : Loader Src) (fit : TransformFit).

Lemma clamp_chunk_lookup (k : MinStage) fit (c : Chunk) (i : nat) :
  val_data (clamp_chunk k fit c) !! i
  = (fun v => if decide (i < Z.to_nat (cap c))%nat
              then std_min v (stage_param k fit c i) else v) <$> val_data c !! i.
Proof. unfold clamp_chunk. cbn [val_data]. apply list_lookup_imap. Qed.

(** The world a successful [load()] of a stage leaves, in closed form. *)
Lemma stage_load_closed (k : MinStage) fit loader w w1 :
  loader w = (true, w1) ->
  stage_load k fit loader w
  = (true, mkWorld (source w1) (clamp_chunk k fit (chunk w1))
                   (lookups w1 ++ stage_lookups k (chunk w1))).
Proof.
  intros Hl.
  destruct (stage_load_true k fit loader w w1 Hl)
    as (Hok & Hs & Hr & Hc & Hcol & Hlen & Hlk & Hval).
  destruct (stage_load k fit loader w) as [ok [s [vals rows n col] l]].
  cbn [fst snd source chunk lookups val_data row_data cap current_col] in *.
  subst ok s rows n col l. unfold clamp_chunk. do 3 f_equal.
  apply list_eq. intros i. rewrite list_lookup_imap.
  destruct (val_data (chunk w1) !! i) as [v|] eqn:Hv.
  - rewrite (Hval i v Hv). reflexivity.
  - apply lookup_ge_None in Hv. apply lookup_ge_None. lia.
Qed.

(** X1. [load()] of a stage is a pure function of what the upstream
    [load()] returns. On false it returns false and the upstream's world.
    On true it returns true and a world whose source is where the upstream
    left it, whose chunk is [clamp_chunk] of the upstream's chunk (the first
    [capacity()] values clamped, all else unchanged) and whose trace has the
    look-ups of the stage appended. *)
Theorem stage_load_refines (k : MinStage) fit loader w :
  stage_load k fit loader w
  = (let (ok, w1) := loader w in
     if ok
     then (true, mkWorld (source w1) (clamp_chunk k fit (chunk w1))
                         (lookups w1 ++ stage_lookups k (chunk w1)))
     else (false, w1)).
Proof.
  destruct (loader w) as [[|] w1] eqn:Hl.
  - apply stage_load_closed, Hl.
  - apply stage_load_false, Hl.
Qed.

(** X2. A stage never invents a value: after a successful [load()] each
    of the first [capacity()] entries is the value it had or the parameter
    of the stage, and it is a NaN exactly when it was one before. *)
Theorem stage_entry_origin (k : MinStage) fit loader w w1 (i : nat) (v : double) :
  loader w = (true, w1) ->
  Z.of_nat i < cap (chunk w1) ->
  val_data (chunk w1) !! i = Some v ->
  exists r : double,
    val_data (chunk (snd (stage_load k fit loader w))) !! i = Some r /\
    (r = v \/ r = stage_param k fit (chunk w1) i) /\
    isnan r = isnan v.
Proof.
  intros Hl Hi Hv. exists (std_min v (stage_param k fit (chunk w1) i)).
  split; [exact (stage_load_entry k fit loader w w1 i v Hl Hi Hv)|].
  split; [apply std_min_cases | apply std_min_isnan_first].
Qed.

(** X13. No stage raises a value or lets it pass its ceiling: after a
    successful [load()] of any of the three stages an entry is [<=] the
    value it had and [<=] the parameter of the stage, whenever neither of the
    two is a NaN. *)
Theorem stage_entry_bound (k : MinStage) fit loader w w1 (i : nat) (v : double) :
  loader w = (true, w1) ->
  Z.of_nat i < cap (chunk w1) ->
  val_data (chunk w1) !! i = Some v ->
  isnan v = false ->
  isnan (stage_param k fit (chunk w1) i) = false ->
  exists r : double,
    val_data (chunk (snd (stage_load k fit loader w))) !! i = Some r /\
    double_le r v /\
    double_le r (stage_param k fit (chunk w1) i).
Proof.
  intros Hl Hi Hv Hnv Hnp. exists (std_min v (stage_param k fit (chunk w1) i)).
  split; [exact (stage_load_entry k fit loader w w1 i v Hl Hi Hv)|].
  apply std_min_le; assumption.
Qed.

Lemma clamp_chunk_idem (k : MinStage) fit (c : Chunk) :
  clamp_chunk k fit (clamp_chunk k fit c) = clamp_chunk k fit c.
Proof.
  assert (Hval : val_data (clamp_chunk k fit (clamp_chunk k fit c))
                 = val_data (clamp_chunk k fit c)).
  { apply list_eq. intros i. rewrite !clamp_chunk_lookup.
    rewrite (stage_param_frame k fit (clamp_chunk k fit c) c) by reflexivity.
    change (cap (clamp_chunk k fit c)) with (cap c).
    destruct (val_data c !! i) as [v|]; [|reflexivity]. cbn [fmap option_fmap option_map].
    destruct (decide (i < Z.to_nat (cap c))%nat); [|reflexivity].
    rewrite std_min_idem. reflexivity. }
  transitivity (mkChunk (val_data (clamp_chunk k fit (clamp_chunk k fit c)))
                        (row_data c) (cap c) (current_col c)); [reflexivity|].
  rewrite Hval. reflexivity.
Qed.

(** X3. Wrapping a stage twice with the same parameters changes nothing
    but the trace: the second clamp finds every value already clamped. The
    chunk and the result of [load()] are those of the stage wrapped once,
    whatever the upstream does. *)
Theorem stage_load_idempotent (k : MinStage) fit loader w :
  fst (stage_load k fit (stage_load k fit loader) w) = fst (stage_load k fit loader w) /\
  chunk (snd (stage_load k fit (stage_load k fit loader) w))
  = chunk (snd (stage_load k fit loader w)) /\
  source (snd (stage_load k fit (stage_load k fit loader) w))
  = source (snd (stage_load k fit loader w)).
Proof.
  destruct (loader w) as [[|] w1] eqn:Hl.
  - pose proof (stage_load_closed k fit loader w w1 Hl) as H1.
    rewrite (stage_load_closed k fit (stage_load k fit loader) w _ H1), H1.
    cbn [fst snd chunk source]. rewrite clamp_chunk_idem. repeat split.
  - pose proof (stage_load_false k fit loader w w1 Hl) as H1.
    rewrite (stage_load_false k fit (stage_load k fit loader) w w1 H1), H1.
    repeat split.
Qed.

(** X4. An empty chunk: a successful [load()] on a chunk of capacity 0
    leaves the chunk as it is. [Min] and [MinByRow] then read no parameter;
    [MinByCol] still reads [col_params(0, currentCol())] once. *)
Theorem stage_load_empty_chunk (k : MinStage) fit loader w w1 :
  loader w = (true, w1) ->
  cap (chunk w1) = 0 ->
  let w2 := snd (stage_load k fit loader w) in
  fst (stage_load k fit loader w) = true /\
  chunk w2 = chunk w1 /\
  lookups w2 = lookups w1 ++ match k with
                             | StageMinByCol => [ColParams 0 (current_col (chunk w1))]
                             | _ => []
                             end.
Proof.
  intros Hl Hcap. rewrite (stage_load_closed k fit loader w w1 Hl).
  cbn [fst snd chunk lookups]. split; [reflexivity|]. split.
  - unfold clamp_chunk. rewrite Hcap. destruct (chunk w1) as [vals rows n col].
    cbn [val_data row_data cap current_col] in *. subst n. f_equal.
    apply list_eq. intros i. rewrite list_lookup_imap.
    destruct (vals !! i); reflexivity.
  - destruct k; cbn [stage_lookups]; rewrite ?Hcap; reflexivity.
Qed.

(** X5. NaN parameters switch a stage off: when the parameter of every
    entry is a NaN, a successful [load()] leaves the chunk as it is. *)
Theorem stage_load_nan_params (k : MinStage) fit loader w w1 :
  loader w = (true, w1) ->
  (forall i : nat, Z.of_nat i < cap (chunk w1) ->
     isnan (stage_param k fit (chunk w1) i) = true) ->
  chunk (snd (stage_load k fit loader w)) = chunk w1.
Proof.
  intros Hl Hnan. rewrite (stage_load_closed k fit loader w w1 Hl).
  cbn [snd chunk]. unfold clamp_chunk.
  destruct (chunk w1) as [vals rows n col] eqn:Hc.
  cbn [val_data row_data cap current_col] in *. f_equal.
  apply list_eq. intros i. rewrite list_lookup_imap.
  destruct (vals !! i) as [v|]; [|reflexivity]. cbn.
  destruct (decide (i < Z.to_nat n)%nat); [|reflexivity].
  rewrite std_min_nan_r; [reflexivity|]. apply Hnan. lia.
Qed.

(** X6. The global and the per-column stage keep the order of the values
    of a chunk: if one entry was [<=] another before a successful
    [load()], it is so afterwards. *)
Theorem stage_load_monotone (k : MinStage) fit loader w w1 (i j : nat) (vi vj : double) :
  k <> StageMinByRow ->
  loader w = (true, w1) ->
  Z.of_nat i < cap (chunk w1) ->
  Z.of_nat j < cap (chunk w1) ->
  val_data (chunk w1) !! i = Some vi ->
  val_data (chunk w1) !! j = Some vj ->
  double_le vi vj ->
  exists ri rj : double,
    val_data (chunk (snd (stage_load k fit loader w))) !! i = Some ri /\
    val_data (chunk (snd (stage_load k fit loader w))) !! j = Some rj /\
    double_le ri rj.
Proof.
  intros Hk Hl Hi Hj Hvi Hvj Hle.
  exists (std_min vi (stage_param k fit (chunk w1) i)),
         (std_min vj (stage_param k fit (chunk w1) j)).
  split; [exact (stage_load_entry k fit loader w w1 i vi Hl Hi Hvi)|].
  split; [exact (stage_load_entry k fit loader w w1 j vj Hl Hj Hvj)|].
  destruct k; [| congruence |]; cbn [stage_param]; apply std_min_monotone, Hle.
Qed.

End MoreOnStages.

(* ------------------------------------------------------------------ *)
(** ** Chains *)

Section MoreOnChains.
Context {Src : Type}.
Implicit Types (w : World Src) (loader : Loader Src) (fit : TransformFit).

(** X7. Any two minimum stages commute as far as numbers go: wrapped in
    either order around any upstream, with any parameters, they leave value
    arrays of one length that hold the same number at every entry. *)
Theorem stages_commute (k1 k2 : MinStage) fit1 fit2 loader w :
  let a := val_data (chunk (snd (stage_load k2 fit2 (stage_load k1 fit1 loader) w))) in
  let b := val_data (chunk (snd (stage_load k1 fit1 (stage_load k2 fit2 loader) w))) in
  length a = length b /\
  forall (i : nat) (x y : double),
    a !! i = Some x -> b !! i = Some y -> same_number x y = true.
Proof.
  destruct (loader w) as [[|] w1] eqn:Hl.
  - destruct (chain_load_true k1 k2 fit1 fit2 loader w w1 Hl) as (_ & Hlen1 & _ & Hv1).
    destruct (chain_load_true k2 k1 fit2 fit1 loader w w1 Hl) as (_ & Hlen2 & _ & Hv2).
    cbn zeta. split; [congruence|].
    intros i x y Hx Hy.
    destruct (val_data (chunk w1) !! i) as [v|] eqn:Hv.
    + rewrite (Hv1 i v Hv) in Hx. rewrite (Hv2 i v Hv) in Hy.
      injection Hx as <-. injection Hy as <-.
      destruct (decide (i < Z.to_nat (cap (chunk w1)))%nat).
      * apply std_min_swap.
      * apply same_number_refl.
    + apply lookup_lt_Some in Hx. apply lookup_ge_None in Hv. lia.
  - rewrite (chain_load_false k1 k2 fit1 fit2 loader w w1 Hl).
    rewrite (chain_load_false k2 k1 fit2 fit1 loader w w1 Hl).
    cbn. split; [reflexivity|].
    intros i x y Hx Hy. rewrite Hx in Hy. injection Hy as <-. apply same_number_refl.
Qed.

(** X8. Two global stages in a row clamp like one global stage whose
    parameter is the smaller of the two, provided neither parameter is a
    NaN: the value arrays hold the same number at every entry. *)
Theorem global_stages_fuse fit1 fit2 fit12 loader w :
  isnan (global_params fit1 0) = false ->
  isnan (global_params fit2 0) = false ->
  global_params fit12 0 = std_min (global_params fit1 0) (global_params fit2 0) ->
  let a := val_data (chunk (snd (Min.load fit2 (Min.load fit1 loader) w))) in
  let b := val_data (chunk (snd (Min.load fit12 loader w))) in
  length a = length b /\
  forall (i : nat) (x y : double),
    a !! i = Some x -> b !! i = Some y -> same_number x y = true.
Proof.
  intros Hn1 Hn2 H12.
  destruct (loader w) as [[|] w1] eqn:Hl.
  - destruct (chain_load_true StageMin StageMin fit1 fit2 loader w w1 Hl)
      as (_ & Hlen1 & _ & Hv1).
    destruct (stage_load_true StageMin fit12 loader w w1 Hl)
      as (_ & _ & _ & _ & _ & Hlen2 & _ & Hv2).
    cbn [stage_load stage_param] in *. cbn zeta. split; [congruence|].
    intros i x y Hx Hy.
    destruct (val_data (chunk w1) !! i) as [v|] eqn:Hv.
    + rewrite (Hv1 i v Hv) in Hx. rewrite (Hv2 i v Hv) in Hy.
      injection Hx as <-. injection Hy as <-.
      destruct (decide (i < Z.to_nat (cap (chunk w1)))%nat).
      * rewrite H12. apply std_min_fuse; assumption.
      * apply same_number_refl.
    + apply lookup_lt_Some in Hx. apply lookup_ge_None in Hv. lia.
  - pose proof (chain_load_false StageMin StageMin fit1 fit2 loader w w1 Hl) as H1.
    pose proof (stage_load_false StageMin fit12 loader w w1 Hl) as H2.
    cbn [stage_load] in *. rewrite H1, H2.
    cbn. split; [reflexivity|].
    intros i x y Hx Hy. rewrite Hx in Hy. injection Hy as <-. apply same_number_refl.
Qed.

(** The value a chain leaves at an entry that held [v]: the parameters of
    the stages applied one after the other, innermost first. *)
Lemma wrap_all_false (stages : list (MinStage * TransformFit)) loader w w1 :
  loader w = (false, w1) -> wrap_all stages loader w = (false, w1).
Proof.
  revert loader. induction stages as [|st rest IH]; intros loader Hl; [exact Hl|].
  cbn [wrap_all fold_left]. apply IH, stage_load_false, Hl.
Qed.

Lemma wrap_all_true (stages : list (MinStage * TransformFit)) loader w w1 :
  loader w = (true, w1) ->
  wrap_all stages loader w
  = (true, mkWorld (source w1)
             (fold_left (fun c st => clamp_chunk (fst st) (snd st) c) stages (chunk w1))
             (lookups w1 ++ concat (map (fun st => stage_lookups (fst st) (chunk w1)) stages))).
Proof.
  revert loader w1. induction stages as [|st rest IH]; intros loader w1 Hl.
  - cbn. rewrite app_nil_r, Hl. destruct w1; reflexivity.
  - cbn [wrap_all fold_left].
    pose proof (stage_load_closed (fst st) (snd st) loader w w1 Hl) as H1.
    specialize (IH _ _ H1). unfold wrap_all in IH. rewrite IH.
    cbn [source chunk lookups map concat]. rewrite <- app_assoc.
    rewrite (map_ext (fun st' => stage_lookups (fst st')
                                   (clamp_chunk (fst st) (snd st) (chunk w1)))
                     (fun st' => stage_lookups (fst st') (chunk w1)));
      [reflexivity|].
    intros st'. apply stage_lookups_frame; reflexivity.
Qed.

Lemma fold_clamp_frame (stages : list (MinStage * TransformFit)) (c : Chunk) :
  let c' := fold_left (fun c st => clamp_chunk (fst st) (snd st) c) stages c in
  row_data c' = row_data c /\ cap c' = cap c /\ current_col c' = current_col c /\
  length (val_data c') = length (val_data c).
Proof.
  revert c. induction stages as [|st rest IH]; intros c; [repeat split|].
  cbn [fold_left]. destruct (IH (clamp_chunk (fst st) (snd st) c)) as (Hr & Hc & Hcol & Hlen).
  cbn zeta. rewrite Hr, Hc, Hcol, Hlen. unfold clamp_chunk. cbn [row_data cap current_col val_data].
  rewrite length_imap. repeat split.
Qed.

Lemma fold_clamp_lookup (stages : list (MinStage * TransformFit)) (c : Chunk) (i : nat) :
  val_data (fold_left (fun c st => clamp_chunk (fst st) (snd st) c) stages c) !! i
  = (fun v => if decide (i < Z.to_nat (cap c))%nat
              then fold_left (fun x st => std_min x (stage_param (fst st) (snd st) c i)) stages v
              else v) <$> val_data c !! i.
Proof.
  revert c. induction stages as [|st rest IH]; intros c.
  - cbn [fold_left]. destruct (val_data c !! i) as [v|]; [|reflexivity]. cbn.
    destruct (decide (i < Z.to_nat (cap c))%nat); reflexivity.
  - cbn [fold_left]. rewrite IH, clamp_chunk_lookup.
    change (cap (clamp_chunk (fst st) (snd st) c)) with (cap c).
    destruct (val_data c !! i) as [v|]; [|reflexivity]. cbn [fmap option_fmap option_map].
    destruct (decide (i < Z.to_nat (cap c))%nat); [|reflexivity].
    reflexivity.
Qed.

(** X9. A chain of any number of stages applies them in wrap order:
    after a successful [load()] entry [i] holds the original value clamped
    with the parameter of each stage in turn, innermost first, and the
    look-ups of the stages follow each other in the same order. When the
    upstream fails so does the chain, and the world is the upstream's. *)
Theorem wrap_all_order (stages : list (MinStage * TransformFit)) loader w :
  (forall w1, loader w = (false, w1) -> wrap_all stages loader w = (false, w1)) /\
  (forall w1, loader w = (true, w1) ->
     let w2 := snd (wrap_all stages loader w) in
     fst (wrap_all stages loader w) = true /\
     lookups w2
     = lookups w1 ++ concat (map (fun st => stage_lookups (fst st) (chunk w1)) stages) /\
     forall (i : nat) (v : double),
       Z.of_nat i < cap (chunk w1) ->
       val_data (chunk w1) !! i = Some v ->
       val_data (chunk w2) !! i
       = Some (fold_left (fun x st => std_min x (stage_param (fst st) (snd st) (chunk w1) i))
                         stages v)).
Proof.
  split; [intros w1; apply wrap_all_false|].
  intros w1 Hl. rewrite (wrap_all_true stages loader w w1 Hl).
  cbn [fst snd chunk lookups]. repeat split.
  intros i v Hi Hv. rewrite fold_clamp_lookup, Hv. cbn.
  destruct (decide (i < Z.to_nat (cap (chunk w1)))%nat); [reflexivity | lia].
Qed.

Lemma fold_min_same_number (pars : list double) (x y : double) :
  same_number x y = true ->
  same_number (fold_left std_min pars x) (fold_left std_min pars y) = true.
Proof.
  revert x y. induction pars as [|p pars IH]; intros x y H; [exact H|].
  cbn [fold_left]. apply IH, std_min_same_number, H.
Qed.

Lemma fold_min_permutation (pars pars' : list double) (v : double) :
  pars ≡ₚ pars' ->
  same_number (fold_left std_min pars v) (fold_left std_min pars' v) = true.
Proof.
  intros Hp. revert v. induction Hp as [|p l l' _ IH|p q l|l l' l'' _ IH1 _ IH2]; intros v.
  - apply same_number_refl.
  - cbn [fold_left]. apply IH.
  - cbn [fold_left]. apply fold_min_same_number, std_min_swap.
  - eapply same_number_trans; [apply IH1 | apply IH2].
Qed.

Lemma fold_stage_params (stages : list (MinStage * TransformFit)) (c : Chunk) (i : nat) (v : double) :
  fold_left (fun x st => std_min x (stage_param (fst st) (snd st) c i)) stages v
  = fold_left std_min (map (fun st => stage_param (fst st) (snd st) c i) stages) v.
Proof.
  revert v. induction stages as [|st rest IH]; intros v; [reflexivity|].
  cbn [fold_left map]. apply IH.
Qed.

(** X10. The order of the stages of a chain does not change the numbers
    it produces: two chains made of the same stages in different orders,
    around the same upstream, leave value arrays of one length that hold
    the same number at every entry. *)
Theorem wrap_all_permutation (stages stages' : list (MinStage * TransformFit)) loader w :
  stages ≡ₚ stages' ->
  let a := val_data (chunk (snd (wrap_all stages loader w))) in
  let b := val_data (chunk (snd (wrap_all stages' loader w))) in
  length a = length b /\
  forall (i : nat) (x y : double),
    a !! i = Some x -> b !! i = Some y -> same_number x y = true.
Proof.
  intros Hp. destruct (loader w) as [[|] w1] eqn:Hl.
  - rewrite (wrap_all_true stages loader w w1 Hl), (wrap_all_true stages' loader w w1 Hl).
    cbn [snd chunk]. cbn zeta. split.
    + destruct (fold_clamp_frame stages (chunk w1)) as (_ & _ & _ & ->).
      destruct (fold_clamp_frame stages' (chunk w1)) as (_ & _ & _ & ->). reflexivity.
    + intros i x y. rewrite !fold_clamp_lookup.
      destruct (val_data (chunk w1) !! i) as [v|]; [|discriminate]. cbn.
      intros Hx Hy. injection Hx as <-. injection Hy as <-.
      destruct (decide (i < Z.to_nat (cap (chunk w1)))%nat); [|apply same_number_refl].
      rewrite !fold_stage_params. apply fold_min_permutation.
      apply fmap_Permutation, Hp.
  - rewrite (wrap_all_false stages loader w w1 Hl), (wrap_all_false stages' loader w w1 Hl).
    cbn. split; [reflexivity|].
    intros i x y Hx Hy. rewrite Hx in Hy. injection Hy as <-. apply same_number_refl.
Qed.

End MoreOnChains.

(** *** The further properties at work *)

Lemma stage_load_refines_witness :
  stage_load StageMinByRow scenario_fit ListSource.load (ListSource.start [scenario_chunk])
  = (true, mkWorld (source scenario_held)
             (clamp_chunk StageMinByRow scenario_fit (chunk scenario_held))
             (lookups scenario_held ++ stage_lookups StageMinByRow (chunk scenario_held))).
Proof.
  exact (stage_load_refines StageMinByRow scenario_fit ListSource.load
           (ListSource.start [scenario_chunk])).
Defined.

Lemma stage_entry_origin_witness :
  exists r : double,
    val_data (chunk (snd (stage_load StageMinByCol scenario_fit ListSource.load
                            (ListSource.start [scenario_chunk])))) !! 1%nat = Some r /\
    (r = 5%float \/ r = stage_param StageMinByCol scenario_fit (chunk scenario_held) 1) /\
    isnan r = isnan 5%float.
Proof.
  apply (stage_entry_origin StageMinByCol scenario_fit ListSource.load
           (ListSource.start [scenario_chunk]) scenario_held 1 5%float).
  - reflexivity.
  - cbn. lia.
  - reflexivity.
Defined.

Lemma stage_entry_bound_witness :
  exists r : double,
    val_data (chunk (snd (stage_load StageMinByRow scenario_fit ListSource.load
                            (ListSource.start [scenario_chunk])))) !! 2%nat = Some r /\
    double_le r 3%float /\
    double_le r (stage_param StageMinByRow scenario_fit (chunk scenario_held) 2).
Proof.
  apply (stage_entry_bound StageMinByRow scenario_fit ListSource.load
           (ListSource.start [scenario_chunk]) scenario_held 2 3%float).
  - reflexivity.
  - cbn. lia.
  - reflexivity.
  - reflexivity.
  - reflexivity.
Defined.

Lemma stage_load_empty_chunk_witness :
  let w1 : World (list Chunk) := mkWorld [] (mkChunk [] [] 0 3) [] in
  let w2 := snd (stage_load StageMinByCol scenario_fit ListSource.load
                   (ListSource.start [mkChunk [] [] 0 3])) in
  fst (stage_load StageMinByCol scenario_fit ListSource.load
         (ListSource.start [mkChunk [] [] 0 3])) = true /\
  chunk w2 = chunk w1 /\
  lookups w2 = lookups w1 ++ [ColParams 0 (current_col (chunk w1))].
Proof.
  apply (stage_load_empty_chunk StageMinByCol scenario_fit ListSource.load
           (ListSource.start [mkChunk [] [] 0 3]) (mkWorld [] (mkChunk [] [] 0 3) []));
    reflexivity.
Defined.

Lemma stage_load_nan_params_witness :
  chunk (snd (stage_load StageMin
                (mkFit (fun _ _ => nan) (fun _ _ => nan) (fun _ => nan))
                ListSource.load (ListSource.start [scenario_chunk])))
  = chunk scenario_held.
Proof.
  apply (stage_load_nan_params StageMin
           (mkFit (fun _ _ => nan) (fun _ _ => nan) (fun _ => nan))
           ListSource.load (ListSource.start [scenario_chunk]) scenario_held).
  - reflexivity.
  - intros i _. reflexivity.
Defined.

Lemma stage_load_monotone_witness :
  exists ri rj : double,
    val_data (chunk (snd (stage_load StageMin scenario_fit ListSource.load
                            (ListSource.start [scenario_chunk])))) !! 0%nat = Some ri /\
    val_data (chunk (snd (stage_load StageMin scenario_fit ListSource.load
                            (ListSource.start [scenario_chunk])))) !! 1%nat = Some rj /\
    double_le ri rj.
Proof.
  apply (stage_load_monotone StageMin scenario_fit ListSource.load
           (ListSource.start [scenario_chunk]) scenario_held 0 1 1%float 5%float).
  - discriminate.
  - reflexivity.
  - cbn. lia.
  - cbn. lia.
  - reflexivity.
  - reflexivity.
  - reflexivity.
Defined.

Lemma global_stages_fuse_witness :
  let a := val_data (chunk (snd (Min.load two_columns_fit (Min.load scenario_fit ListSource.load)
                                   (ListSource.start [scenario_chunk])))) in
  let b := val_data (chunk (snd (Min.load scenario_fit ListSource.load
                                   (ListSource.start [scenario_chunk])))) in
  length a = length b /\
  forall (i : nat) (x y : double),
    a !! i = Some x -> b !! i = Some y -> same_number x y = true.
Proof.
  apply (global_stages_fuse scenario_fit two_columns_fit scenario_fit ListSource.load
           (ListSource.start [scenario_chunk])); reflexivity.
Defined.

Lemma wrap_all_permutation_witness :
  let a := val_data (chunk (snd (wrap_all [(StageMinByRow, scenario_fit);
                                           (StageMin, scenario_fit);
                                           (StageMinByCol, two_columns_fit)]
                                   ListSource.load (ListSource.start [scenario_chunk])))) in
  let b := val_data (chunk (snd (wrap_all [(StageMin, scenario_fit);
                                           (StageMinByRow, scenario_fit);
                                           (StageMinByCol, two_columns_fit)]
                                   ListSource.load (ListSource.start [scenario_chunk])))) in
  length a = length b /\
  forall (i : nat) (x y : double),
    a !! i = Some x -> b !! i = Some y -> same_number x y = true.
Proof.
  apply (wrap_all_permutation
           [(StageMinByRow, scenario_fit); (StageMin, scenario_fit);
            (StageMinByCol, two_columns_fit)]
           [(StageMin, scenario_fit); (StageMinByRow, scenario_fit);
            (StageMinByCol, two_columns_fit)]
           ListSource.load (ListSource.start [scenario_chunk])).
  apply perm_swap.
Defined.

(** A chain of three stages on the scenario chunk: row parameters 0, 10, 1,
    then the global parameter 2, then the column parameter 4. *)
Example wrap_all_scenario :
  val_data (chunk (snd (wrap_all [(StageMinByRow, scenario_fit);
                                  (StageMin, scenario_fit);
                                  (StageMinByCol, scenario_fit)]
                          ListSource.load (ListSource.start [scenario_chunk]))))
  = [0%float; 2%float; 1%float].
Proof. vm_compute. reflexivity. Qed.

(* ------------------------------------------------------------------ *)
(** ** Statistics results, further *)

Module MoreStatsFacts.
Import MatrixStats.

(** X11. Transposing exchanges the accessors: each row accessor of the
    transposed result behaves as the column accessor of the original, error
    included, and the other way round. *)
Theorem transpose_exchanges_accessors (s : StatsResult) :
  rowNonzeros (transpose s) = colNonzeros s /\
  rowMean (transpose s) = colMean s /\
  rowVariance (transpose s) = colVariance s /\
  colNonzeros (transpose s) = rowNonzeros s /\
  colMean (transpose s) = rowMean s /\
  colVariance (transpose s) = rowVariance s.
Proof. destruct s as [r c]. repeat split. Qed.

Lemma accessor_app (a more : ArrayXXd) (k : nat) (what : string) :
  (rows a <? Z.of_nat (S k)) = false ->
  (if rows (a ++ more) <? Z.of_nat (S k) then Throw what else Ok (row (a ++ more) (Z.of_nat k)))
  = (if rows a <? Z.of_nat (S k) then @Throw ArrayXXd what else Ok (row a (Z.of_nat k))).
Proof.
  intros H. rewrite H. apply Z.ltb_ge in H. unfold rows in *.
  destruct (Z.ltb_spec (Z.of_nat (length (a ++ more))) (Z.of_nat (S k))) as [Hlt | _].
  - rewrite length_app in Hlt. lia.
  - unfold row, ArrayXXd in *. rewrite Nat2Z.id, lookup_app_l by lia. reflexivity.
Qed.

(** X12. An accessor looks at its own row only: once a statistic is
    there, appending further rows to either array changes nothing about
    what its accessor returns. *)
Theorem accessors_ignore_further_rows (s : StatsResult) (more_r more_c : ArrayXXd) :
  let s' := mkStatsResult (row_stats s ++ more_r) (col_stats s ++ more_c) in
  (succeeds (rowNonzeros s) = true -> rowNonzeros s' = rowNonzeros s) /\
  (succeeds (rowMean s) = true -> rowMean s' = rowMean s) /\
  (succeeds (rowVariance s) = true -> rowVariance s' = rowVariance s) /\
  (succeeds (colNonzeros s) = true -> colNonzeros s' = colNonzeros s) /\
  (succeeds (colMean s) = true -> colMean s' = colMean s) /\
  (succeeds (colVariance s) = true -> colVariance s' = colVariance s).
Proof.
  cbn zeta. unfold rowNonzeros, rowMean, rowVariance, colNonzeros, colMean, colVariance.
  cbn [row_stats col_stats].
  repeat split; intros H;
    match goal with
    | H : succeeds (if ?c then _ else _) = true |- _ =>
        assert (E : c = false) by (destruct c; [discriminate H | reflexivity])
    end.
  - exact (accessor_app _ _ 0 _ E).
  - exact (accessor_app _ _ 1 _ E).
  - exact (accessor_app _ _ 2 _ E).
  - exact (accessor_app _ _ 0 _ E).
  - exact (accessor_app _ _ 1 _ E).
  - exact (accessor_app _ _ 2 _ E).
Qed.

End MoreStatsFacts.
